(** * Text-length A/B test for DonorsChoose: a shallow embedding

    The development follows [src/text_length_ab_test.py]: the sample-size
    estimator, the simulated experiment, the statistical tester and the
    business-impact calculation, each under the name it has in the script.

    Numbers.  The script computes in NumPy's [float64].  Here a finite
    value is a real number (rounding, overflow and the sign of zero are
    abstracted away), and the three special values that NumPy produces
    instead of raising ([nan], [inf], [-inf]) are kept, because the
    behaviour of the script on bad inputs is decided by them.  Where a
    result depends on rounding or on overflow, the same lines are
    evaluated in IEEE 754 binary64 (module [Binary64]), and statements
    about returned values keep to ranges in which neither occurs.

    Effects.  A Python exception is a value of the result type [py]; the
    random generator of the simulation is an explicit state.

    Library code.  [scipy.stats.chi2_contingency], [norm.ppf] and [chi2.sf]
    are not part of the repository.  The first is followed through its
    implementation on a 2x2 table; the other two are the mathematical
    functions that they evaluate, built from the Gaussian integral. *)

From Stdlib Require Import Reals Lra Lia ZArith List Bool.
From Stdlib Require Import QArith Qreals.
From Stdlib Require Import Machin Ranalysis5 ClassicalEpsilon.
From Stdlib Require Import Permutation.
From Stdlib Require Ascii String.
From Stdlib Require PrimFloat Uint63 FloatOps SpecFloat.
Import ListNotations.

Local Open Scope R_scope.

(** ** Idealised NumPy [float64] *)

Module Float64.

Inductive float64 : Type :=
| Fin (x : R)
| PInf
| NInf
| NaN.

Definition of_Z (z : Z) : float64 := Fin (IZR z).

Definition fneg (a : float64) : float64 :=
  match a with
  | Fin x => Fin (- x)
  | PInf => NInf
  | NInf => PInf
  | NaN => NaN
  end.

Definition fadd (a b : float64) : float64 :=
  match a, b with
  | NaN, _ | _, NaN => NaN
  | Fin x, Fin y => Fin (x + y)
  | PInf, NInf | NInf, PInf => NaN
  | PInf, _ | _, PInf => PInf
  | NInf, _ | _, NInf => NInf
  end.

Definition fsub (a b : float64) : float64 := fadd a (fneg b).

(** Sign of a non-zero real, used for products and quotients with an
    infinite operand. *)
Definition inf_of_sign (positive : bool) : float64 :=
  if positive then PInf else NInf.

Definition inf_times (positive : bool) (y : R) : float64 :=
  if Req_dec_T y 0 then NaN
  else if Rlt_dec 0 y then inf_of_sign positive
       else inf_of_sign (negb positive).

Definition fmul (a b : float64) : float64 :=
  match a, b with
  | NaN, _ | _, NaN => NaN
  | Fin x, Fin y => Fin (x * y)
  | PInf, Fin y | Fin y, PInf => inf_times true y
  | NInf, Fin y | Fin y, NInf => inf_times false y
  | PInf, PInf | NInf, NInf => PInf
  | PInf, NInf | NInf, PInf => NaN
  end.

(** NumPy true division: a zero divisor gives [nan] or an infinity (with a
    RuntimeWarning, which the script silences), never an exception. *)
Definition fdiv (a b : float64) : float64 :=
  match a, b with
  | NaN, _ | _, NaN => NaN
  | Fin x, Fin y =>
      if Req_dec_T y 0 then
        if Req_dec_T x 0 then NaN
        else if Rlt_dec 0 x then PInf else NInf
      else Fin (x / y)
  | Fin _, (PInf | NInf) => Fin 0
  | PInf, Fin y => if Rle_dec 0 y then PInf else NInf
  | NInf, Fin y => if Rle_dec 0 y then NInf else PInf
  | (PInf | NInf), (PInf | NInf) => NaN
  end.

(** [np.sqrt]: [nan] on a negative argument. *)
Definition fsqrt (a : float64) : float64 :=
  match a with
  | Fin x => if Rlt_dec x 0 then NaN else Fin (sqrt x)
  | PInf => PInf
  | NInf | NaN => NaN
  end.

Definition fabs (a : float64) : float64 :=
  match a with
  | Fin x => Fin (Rabs x)
  | PInf | NInf => PInf
  | NaN => NaN
  end.

Definition Rsign (x : R) : R :=
  if Rlt_dec 0 x then 1 else if Rlt_dec x 0 then -1 else 0.

(** [np.sign]: -1, 0 or 1, and [nan] for [nan]. *)
Definition fsign (a : float64) : float64 :=
  match a with
  | Fin x => Fin (Rsign x)
  | PInf => Fin 1
  | NInf => Fin (-1)
  | NaN => NaN
  end.

(** [np.minimum]: propagates [nan]. *)
Definition fminimum (a b : float64) : float64 :=
  match a, b with
  | NaN, _ | _, NaN => NaN
  | Fin x, Fin y => Fin (Rmin x y)
  | NInf, _ | _, NInf => NInf
  | PInf, c | c, PInf => c
  end.

(** [a < b]: false as soon as an operand is [nan]. *)
Definition fltb (a b : float64) : bool :=
  match a, b with
  | NaN, _ | _, NaN => false
  | Fin x, Fin y => if Rlt_dec x y then true else false
  | NInf, (Fin _ | PInf) => true
  | Fin _, PInf => true
  | _, _ => false
  end.

(** [a == b]: false as soon as an operand is [nan]. *)
Definition feqb (a b : float64) : bool :=
  match a, b with
  | Fin x, Fin y => if Req_dec_T x y then true else false
  | PInf, PInf | NInf, NInf => true
  | _, _ => false
  end.

(** Ceiling of a real number, as an integer. *)
Definition Rceil (x : R) : Z := (- Int_part (- x))%Z.

(** [np.ceil]: special values pass through. *)
Definition fceil (a : float64) : float64 :=
  match a with
  | Fin x => Fin (IZR (Rceil x))
  | s => s
  end.

End Float64.
Import Float64.


(** ** Python exceptions *)

Inductive exn : Type :=
| ValueError_observed_negative
    (* scipy: All values in `observed` must be nonnegative. *)
| ValueError_expected_zero (i j : nat)
    (* scipy: The internally computed table of expected frequencies has a
       zero element at (i, j). *)
| ValueError_nan_to_int
    (* int(): cannot convert float NaN to integer *)
| OverflowError_inf_to_int.
    (* int(): cannot convert float infinity to integer *)

Inductive py (A : Type) : Type :=
| Returned (a : A)
| Raised (e : exn).
Arguments Returned {A} a.
Arguments Raised {A} e.

Definition bind {A B : Type} (m : py A) (k : A -> py B) : py B :=
  match m with
  | Returned a => k a
  | Raised e => Raised e
  end.

Notation "x <- m ;; k" := (bind m (fun x => k))
  (at level 61, m at next level, right associativity).

(** [int(x)] on a float: truncation for a finite value (the script only
    applies it to the result of [np.ceil], which is integral), an exception
    for a special value. *)
Definition int_of_float (a : float64) : py Z :=
  match a with
  | Fin x => Returned (if Rle_dec 0 x then Int_part x else Rceil x)
  | PInf | NInf => Raised OverflowError_inf_to_int
  | NaN => Raised ValueError_nan_to_int
  end.

(** ** SciPy's distributions

    [scipy.stats.norm] and [scipy.stats.chi2] are library code; they are
    modelled by the mathematical functions they evaluate.  [gauss_int z] is
    the integral of [exp (- t^2 / 2)] over [[0, z]]. *)

Definition gauss (t : R) : R := exp (- (t * t) / 2).

Lemma gauss_continuity : continuity gauss.
Proof.
  unfold gauss. apply derivable_continuous. reg.
Qed.

Lemma gauss_integrable (a b : R) : Riemann_integrable gauss a b.
Proof.
  destruct (Rle_dec a b) as [Hab|Hab].
  - apply continuity_implies_RiemannInt; [exact Hab|].
    intros x _. apply gauss_continuity.
  - apply RiemannInt_P1. apply continuity_implies_RiemannInt; [lra|].
    intros x _. apply gauss_continuity.
Qed.

Definition gauss_int (z : R) : R := RiemannInt (gauss_integrable 0 z).

(** The standard normal distribution function. *)
Definition norm_cdf (z : R) : R :=
  if Rle_dec 0 z
  then 1 / 2 + gauss_int z / sqrt (2 * PI)
  else 1 / 2 - gauss_int (- z) / sqrt (2 * PI).

(** The quantile function: a point where the distribution function takes
    the value [q]. *)
Definition norm_quantile (q : R) : R :=
  epsilon (inhabits 0) (fun z => norm_cdf z = q).

(** [norm.ppf(q)]. *)
Definition norm_ppf (q : float64) : float64 :=
  match q with
  | Fin x =>
      if Rlt_dec x 0 then NaN
      else if Rlt_dec 1 x then NaN
      else if Req_dec_T x 0 then NInf
      else if Req_dec_T x 1 then PInf
      else Fin (norm_quantile x)
  | _ => NaN
  end.

(** The survival function of the chi-square distribution with one degree
    of freedom: the probability that a standard normal variable exceeds
    [sqrt x] in absolute value. *)
Definition chi2_sf_real (x : R) : R := 2 * (1 - norm_cdf (sqrt x)).

(** [chi2.sf(x, 1)]. *)
Definition chi2_sf (x : float64) : float64 :=
  match x with
  | Fin x => Fin (chi2_sf_real x)
  | PInf => Fin 0
  | NInf => Fin 1
  | NaN => NaN
  end.

(** Two families of polynomials used to bound the Gaussian integral from
    below: the Taylor polynomials of [exp (- y)], and the integrals over
    [[0, x]] of those polynomials taken at [y = t^2 / 2]. *)

Fixpoint exp_taylor (n : nat) (y : R) : R :=
  match n with
  | O => 1
  | S m => exp_taylor m y + (- y) ^ (S m) / INR (fact (S m))
  end.

Fixpoint gauss_poly_int (n : nat) (x : R) : R :=
  match n with
  | O => x
  | S m =>
      gauss_poly_int m x
      + (- (1 / 2)) ^ (S m) / (INR (fact (S m)) * INR (2 * S m + 1))
        * x ^ (2 * S m + 1)
  end.

(** ** SciPy's [chi2_contingency] on a 2x2 table

    Library code again, followed through [scipy/stats/contingency.py]:
    negative counts are refused; the expected frequencies are the products
    of the marginal sums over the total; a zero expected frequency is
    refused; with one degree of freedom Yates' continuity correction moves
    every observed count towards its expectation by at most 0.5; the
    statistic is Pearson's, and the p-value is the chi-square survival
    function at the statistic.  (The consistency test that
    [power_divergence] applies to the two sums is omitted: both sums equal
    the table total.) *)

Definition table (X : Type) : Type := (X * X) * (X * X).

Definition tmap {X Y : Type} (f : X -> Y) (t : table X) : table Y :=
  let '((a, b), (c, d)) := t in ((f a, f b), (f c, f d)).

Definition tmap2 {X Y W : Type} (f : X -> Y -> W) (t : table X) (u : table Y)
  : table W :=
  let '((a, b), (c, d)) := t in
  let '((a', b'), (c', d')) := u in
  ((f a a', f b b'), (f c c', f d d')).

(** [t.sum()], in row-major order. *)
Definition tsum (t : table float64) : float64 :=
  let '((a, b), (c, d)) := t in fadd (fadd (fadd a b) c) d.

Definition any_negative (t : table Z) : bool :=
  let '((a, b), (c, d)) := t in
  ((a <? 0) || (b <? 0) || (c <? 0) || (d <? 0))%Z.

Definition expected_freq (observed : table Z) : table float64 :=
  let '((a, b), (c, d)) := tmap of_Z observed in
  let row0 := fadd a b in
  let row1 := fadd c d in
  let col0 := fadd a c in
  let col1 := fadd b d in
  let total := tsum ((a, b), (c, d)) in
  ((fdiv (fmul row0 col0) total, fdiv (fmul row0 col1) total),
   (fdiv (fmul row1 col0) total, fdiv (fmul row1 col1) total)).

(** The first position, in row-major order, of an entry equal to zero. *)
Definition first_zero (t : table float64) : option (nat * nat) :=
  let '((a, b), (c, d)) := t in
  if feqb a (Fin 0) then Some (0, 0)%nat
  else if feqb b (Fin 0) then Some (0, 1)%nat
  else if feqb c (Fin 0) then Some (1, 0)%nat
  else if feqb d (Fin 0) then Some (1, 1)%nat
  else None.

Definition yates (observed expected : float64) : float64 :=
  let diff := fsub expected observed in
  let direction := fsign diff in
  let magnitude := fminimum (Fin (1 / 2)) (fabs diff) in
  fadd observed (fmul magnitude direction).

Definition pearson_term (f_obs f_exp : float64) : float64 :=
  fdiv (fmul (fsub f_obs f_exp) (fsub f_obs f_exp)) f_exp.

Definition power_divergence (f_obs f_exp : table float64)
  : float64 * float64 :=
  let stat := tsum (tmap2 pearson_term f_obs f_exp) in
  (stat, chi2_sf stat).

Definition chi2_contingency (observed : table Z)
  : py (float64 * float64 * Z * table float64) :=
  if any_negative observed then Raised ValueError_observed_negative
  else
    let expected := expected_freq observed in
    match first_zero expected with
    | Some (i, j) => Raised (ValueError_expected_zero i j)
    | None =>
        let dof := 1%Z in
        let observed' := tmap2 yates (tmap of_Z observed) expected in
        let (chi2, p) := power_divergence observed' expected in
        Returned (chi2, p, dof, expected)
    end.

(** The same computation on finite values, as real-number formulas. *)

Definition yates_real (o e : R) : R :=
  o + Rmin (1 / 2) (Rabs (e - o)) * Rsign (e - o).

Definition pearson_real (o e : R) : R := (o - e) * (o - e) / e.

Definition expected_real (a b c d : R) : table R :=
  let n := a + b + c + d in
  (((a + b) * (a + c) / n, (a + b) * (b + d) / n),
   ((c + d) * (a + c) / n, (c + d) * (b + d) / n)).

Definition chi2_stat (a b c d : R) : R :=
  let '((e00, e01), (e10, e11)) := expected_real a b c d in
  pearson_real (yates_real a e00) e00
  + pearson_real (yates_real b e01) e01
  + pearson_real (yates_real c e10) e10
  + pearson_real (yates_real d e11) e11.

(** ** Sample size ([calculate_sample_size], lines 143-152) *)

Definition calculate_sample_size (alpha power p1 p2 : float64) : py Z :=
  let z_alpha := norm_ppf (fsub (Fin 1) (fdiv alpha (Fin 2))) in
  let z_beta := norm_ppf power in
  let p_avg := fdiv (fadd p1 p2) (Fin 2) in
  let ratio :=
    fdiv
      (fadd
         (fmul z_alpha
            (fsqrt (fmul (fmul (Fin 2) p_avg) (fsub (Fin 1) p_avg))))
         (fmul z_beta
            (fsqrt (fadd (fmul p1 (fsub (Fin 1) p1))
                         (fmul p2 (fsub (Fin 1) p2))))))
      (fsub p2 p1) in
  let n := fmul (Fin 2) (fmul ratio ratio) in
  int_of_float (fceil n).

Definition default_alpha : float64 := Fin (5 / 100).
Definition default_power : float64 := Fin (8 / 10).

(** The sample-size formula on finite values, over the reals. *)
Definition sample_size_real (alpha power p1 p2 : R) : R :=
  let z_alpha := norm_quantile (1 - alpha / 2) in
  let z_beta := norm_quantile power in
  let p_avg := (p1 + p2) / 2 in
  2 * ((z_alpha * sqrt (2 * p_avg * (1 - p_avg))
        + z_beta * sqrt (p1 * (1 - p1) + p2 * (1 - p2))) / (p2 - p1)) ^ 2.

(** The numerator of the formula at the default level and power. *)
Definition sample_size_numerator (p1 p2 : R) : R :=
  norm_quantile (1 - 5 / 100 / 2)
  * sqrt (2 * ((p1 + p2) / 2) * (1 - (p1 + p2) / 2))
  + norm_quantile (8 / 10) * sqrt (p1 * (1 - p1) + p2 * (1 - p2)).

(** ** The random generator

    [np.random.seed(42)] initialises NumPy's legacy global generator, a
    Mersenne twister.  Its stream of 32-bit outputs is left arbitrary;
    [random_sample] builds a 53-bit uniform draw in [[0, 1)] from two of
    them, and [np.random.choice(a, p=p)] inverts the cumulative
    distribution of [p] at one such draw. *)

Definition rng : Type := nat -> Z.

Definition genrand (g : rng) : Z * rng :=
  ((g 0%nat mod 2 ^ 32)%Z, fun n => g (S n)).

Definition random_sample (g : rng) : Q * rng :=
  let (w1, g1) := genrand g in
  let (w2, g2) := genrand g1 in
  let a := Z.shiftr w1 5 in
  let b := Z.shiftr w2 6 in
  (Qmake (a * 67108864 + b) 9007199254740992, g2).

Fixpoint cumsum_from (acc : Q) (p : list Q) : list Q :=
  match p with
  | [] => []
  | x :: rest => (acc + x)%Q :: cumsum_from (acc + x)%Q rest
  end.

Definition cumsum (p : list Q) : list Q := cumsum_from 0%Q p.

(** [cdf.searchsorted(u, side='right')] on a sorted [cdf]: the number of
    entries that are at most [u]. *)
Definition searchsorted_right (cdf : list Q) (u : Q) : nat :=
  length (filter (fun c => Qle_bool c u) cdf).

Definition choice {A : Type} (a : list A) (p : list Q) (d : A) (g : rng)
  : A * rng :=
  let cdf := cumsum p in
  let cdf := map (fun c => (c / last cdf 1%Q)%Q) cdf in
  let (u, g') := random_sample g in
  (nth (searchsorted_right cdf u) a d, g').

(** ** The simulated experiment ([implement_ab_test], lines 173-214) *)

Inductive group : Type := A | B | C | D.

Record group_config : Type := mk_config {
  min_essay_length : Z
}.

Definition test_groups (grp : group) : group_config :=
  match grp with
  | A => {| min_essay_length := 0 |}
  | B => {| min_essay_length := 800 |}
  | C => {| min_essay_length := 1000 |}
  | D => {| min_essay_length := 1200 |}
  end.

(** The columns of a record that the simulation reads. *)
Record row : Type := mk_row {
  project_is_approved : Z;
  essay_length : Z;
  test_group : group
}.

Definition simulate_text_length_effect (r : row) (g : rng) : Z * rng :=
  let min_length := min_essay_length (test_groups (test_group r)) in
  if (min_length =? 0)%Z then (project_is_approved r, g)
  else if ((essay_length r <? min_length)%Z
           && (project_is_approved r =? 1)%Z)%bool
       then choice [0%Z; 1%Z] [3 # 10; 7 # 10]%Q 0%Z g
       else (project_is_approved r, g).

(** [df.apply(simulate_text_length_effect, axis=1)]: the rows are visited
    in order and share the generator. *)
Fixpoint apply_rows (f : row -> rng -> Z * rng) (df : list row) (g : rng)
  : list Z * rng :=
  match df with
  | [] => ([], g)
  | r :: rest =>
      let (v, g1) := f r g in
      let (vs, g2) := apply_rows f rest g1 in
      (v :: vs, g2)
  end.

(** [np.random.choice(['A','B','C','D'], size=n, p=[0.25]*4)]. *)
Fixpoint assign_groups (n : nat) (g : rng) : list group * rng :=
  match n with
  | O => ([], g)
  | S m =>
      let (x, g1) := choice [A; B; C; D] [1 # 4; 1 # 4; 1 # 4; 1 # 4]%Q A g in
      let (xs, g2) := assign_groups m g1 in
      (x :: xs, g2)
  end.

(** The experiment on a dataset of (label, essay length) records: the
    groups are drawn first, then the outcome of every row is simulated.
    The dataset is taken to have at least one record, as the one of the
    script has: on an empty frame pandas' [apply] returns a frame, not a
    column, and the assignment to [ab_test_approved] raises.  On the empty
    list this function returns empty lists. *)
Definition implement_ab_test (df : list (Z * Z)) (g : rng)
  : list row * list Z * rng :=
  let (groups, g1) := assign_groups (length df) g in
  let rows :=
    map (fun '((label, len), grp) =>
           {| project_is_approved := label;
              essay_length := len;
              test_group := grp |})
        (combine df groups) in
  let (ab_test_approved, g2) :=
    apply_rows simulate_text_length_effect rows g1 in
  (rows, ab_test_approved, g2).

(** ** The statistical tester ([perform_ab_test], lines 284-318) *)

Definition series : Type := list Z.

Definition series_sum (s : series) : Z := fold_right Z.add 0%Z s.

Definition series_len (s : series) : Z := Z.of_nat (length s).

Record test_result : Type := mk_result {
  control_rate : float64;
  treatment_rate : float64;
  effect_size : float64;
  p_value : float64;
  significant : bool;
  ci_lower : float64;
  ci_upper : float64
}.

Definition perform_ab_test (control_data treatment_data : series)
  (alpha : float64) : py test_result :=
  let control_approved := series_sum control_data in
  let control_total := series_len control_data in
  let treatment_approved := series_sum treatment_data in
  let treatment_total := series_len treatment_data in
  let contingency_table :=
    ((control_approved, control_total - control_approved),
     (treatment_approved, treatment_total - treatment_approved))%Z in
  res <- chi2_contingency contingency_table ;;
  let '(chi2, p_value, dof, expected) := res in
  let control_rate := fdiv (of_Z control_approved) (of_Z control_total) in
  let treatment_rate :=
    fdiv (of_Z treatment_approved) (of_Z treatment_total) in
  let effect_size := fsub treatment_rate control_rate in
  let pooled_se :=
    fsqrt
      (fadd
         (fdiv (fmul control_rate (fsub (Fin 1) control_rate))
               (of_Z control_total))
         (fdiv (fmul treatment_rate (fsub (Fin 1) treatment_rate))
               (of_Z treatment_total))) in
  let ci_95 := fmul (Fin (196 / 100)) pooled_se in
  Returned
    {| control_rate := control_rate;
       treatment_rate := treatment_rate;
       effect_size := effect_size;
       p_value := p_value;
       significant := fltb p_value alpha;
       ci_lower := fsub effect_size ci_95;
       ci_upper := fadd effect_size ci_95 |}.

(** The quantities of the specification, over the reals: the success
    rate [k / n] of a sample, the standard error of the difference of two
    rates, and the statistic of the contingency table of two samples. *)

Definition rate (s : series) : R := IZR (series_sum s) / IZR (series_len s).

Definition standard_error (control treatment : series) : R :=
  sqrt (rate control * (1 - rate control) / IZR (series_len control)
        + rate treatment * (1 - rate treatment) / IZR (series_len treatment)).

Definition sample_stat (control treatment : series) : R :=
  chi2_stat (IZR (series_sum control))
            (IZR (series_len control - series_sum control))
            (IZR (series_sum treatment))
            (IZR (series_len treatment - series_sum treatment)).

(** Both outcomes occur in the pooled sample, and no count is out of
    range: the condition under which the chi-square routine accepts the
    table of two samples. *)
Definition testable (control treatment : series) : Prop :=
  (0 <= series_sum control <= series_len control)%Z /\
  (0 <= series_sum treatment <= series_len treatment)%Z /\
  (0 < series_len control)%Z /\ (0 < series_len treatment)%Z /\
  (0 < series_sum control + series_sum treatment)%Z /\
  (series_sum control + series_sum treatment
   < series_len control + series_len treatment)%Z.

(** A sample of boolean outcomes, coded 0 and 1. *)
Definition boolean (s : series) : Prop :=
  Forall (fun x => x = 0%Z \/ x = 1%Z) s.

(** A sample of [total] boolean outcomes, [successes] of which are 1. *)
Definition sample_of (successes total : nat) : series :=
  repeat 1%Z successes ++ repeat 0%Z (total - successes).

(** The record that the tester returns on a testable pair of samples. *)
Definition expected_result (control treatment : series) (alpha : float64)
  : test_result :=
  let effect := rate treatment - rate control in
  let p := chi2_sf_real (sample_stat control treatment) in
  {| control_rate := Fin (rate control);
     treatment_rate := Fin (rate treatment);
     effect_size := Fin effect;
     p_value := Fin p;
     significant := fltb (Fin p) alpha;
     ci_lower := Fin (effect - 196 / 100 * standard_error control treatment);
     ci_upper := Fin (effect + 196 / 100 * standard_error control treatment)
  |}.

(** The exceptions that come out of [chi2_contingency]. *)
Definition chi2_contingency_error (e : exn) : Prop :=
  e = ValueError_observed_negative \/
  exists i j, e = ValueError_expected_zero i j.

(** ** Business impact ([calculate_business_impact], lines 353-371) *)

Record impact : Type := mk_impact {
  additional_approved : float64;
  additional_funding : float64;
  projects_rejected : float64;
  net_impact : float64
}.

Definition default_avg_project_cost : float64 := Fin (29812 / 100).

Definition calculate_business_impact
  (control_rate treatment_rate total_projects avg_project_cost : float64)
  : impact :=
  let additional_approved :=
    fmul (fsub treatment_rate control_rate) total_projects in
  let additional_funding := fmul additional_approved avg_project_cost in
  let projects_rejected :=
    if fltb treatment_rate control_rate
    then fmul (fsub control_rate treatment_rate) total_projects
    else Fin 0 in
  {| additional_approved := additional_approved;
     additional_funding := additional_funding;
     projects_rejected := projects_rejected;
     net_impact :=
       fsub additional_funding (fmul projects_rejected avg_project_cost) |}.

(** ** Visiting a list, stopping at the first exception *)

Fixpoint for_each {X Y : Type} (f : X -> py Y) (l : list X) : py (list Y) :=
  match l with
  | [] => Returned []
  | x :: rest =>
      y <- f x ;;
      ys <- for_each f rest ;;
      Returned (y :: ys)
  end.

(** ** Sample-size table ([sample_size_analysis], lines 141-171) *)

(** [Series.mean()]: the sum over the length, [nan] on an empty series. *)
Definition series_mean (s : series) : float64 :=
  fdiv (of_Z (series_sum s)) (of_Z (series_len s)).

Definition effect_sizes : list float64 :=
  [Fin (1 / 100); Fin (2 / 100); Fin (3 / 100); Fin (5 / 100)].

Record sample_size_report : Type := mk_report {
  requirements : list (float64 * Z);
  target_sample_size : Z;
  total_test_size : Z
}.

Definition sample_size_analysis (labels : series) : py sample_size_report :=
  let current_rate := series_mean labels in
  table <-
    for_each
      (fun effect =>
         let new_rate := fadd current_rate effect in
         sample_size <-
           calculate_sample_size default_alpha default_power
             current_rate new_rate ;;
         Returned (effect, sample_size))
      effect_sizes ;;
  let target_sample_size := 5000%Z in
  Returned {| requirements := table;
              target_sample_size := target_sample_size;
              total_test_size := (target_sample_size * 4)%Z |}.

(** ** The data frame after the experiment *)

(** A row together with its [ab_test_approved] column. *)
Definition frame : Type := list (row * Z).

Definition frame_of (df : list (Z * Z)) (g : rng) : frame :=
  let '(rows, ab_test_approved, _) := implement_ab_test df g in
  combine rows ab_test_approved.

Definition group_eqb (x y : group) : bool :=
  match x, y with
  | A, A | B, B | C, C | D, D => true
  | _, _ => false
  end.

(** [df[df['test_group'] == grp]]. *)
Definition in_group (grp : group) (df : frame) : frame :=
  filter (fun rv => group_eqb (test_group (fst rv)) grp) df.

(** [df[df['test_group'] == grp]['ab_test_approved']]. *)
Definition group_outcomes (df : frame) (grp : group) : series :=
  map snd (in_group grp df).

(** The rows on which the simulation draws: in a treatment group, with an
    essay below the minimum, and approved. *)
Definition draws_on (r : row) : bool :=
  let min_length := min_essay_length (test_groups (test_group r)) in
  (negb (min_length =? 0)%Z
   && (essay_length r <? min_length)%Z
   && (project_is_approved r =? 1)%Z)%bool.

(** [df[df['test_group'] == grp]['project_is_approved']]. *)
Definition group_labels (df : frame) (grp : group) : series :=
  map (fun rv => project_is_approved (fst rv)) (in_group grp df).

(** The rows of a group whose simulated outcome is not their label. *)
Definition demoted (grp : group) (df : frame) : frame :=
  filter (fun rv => negb (snd rv =? project_is_approved (fst rv))%Z)
    (in_group grp df).

(** ** Affected projects and length bins ([analyze_results], lines 243-265) *)

(** The items of the [test_groups] dictionary, in insertion order. *)
Definition test_group_items : list (group * group_config) :=
  map (fun grp => (grp, test_groups grp)) [A; B; C; D].

Definition count_short (min_length : Z) (df : frame) : Z :=
  Z.of_nat
    (length (filter (fun rv => (essay_length (fst rv) <? min_length)%Z) df)).

Definition affected_projects (df : frame) : list (group * Z) :=
  flat_map
    (fun '(grp, config) =>
       if (0 <? min_essay_length config)%Z
       then [(grp, count_short (min_essay_length config) (in_group grp df))]
       else [])
    test_group_items.

Definition essay_length_bins : list Z :=
  [0; 500; 800; 1000; 1200; 1500; 2000; 3000]%Z.

(** [pd.cut(x, bins)] with the default right-closed intervals: the index
    of the interval [(lo, hi]] that holds [x], and nothing ([nan]) when
    [x] lies outside all of them. *)
Fixpoint cut_from (i : nat) (bins : list Z) (x : Z) : option nat :=
  match bins with
  | lo :: ((hi :: _) as rest) =>
      if ((lo <? x) && (x <=? hi))%Z%bool then Some i
      else cut_from (S i) rest x
  | _ => None
  end.

Definition cut (bins : list Z) (x : Z) : option nat := cut_from 0 bins x.

Definition essay_length_bin (r : row) : option nat :=
  cut essay_length_bins (essay_length r).

(** ** The three tests ([statistical_tests], lines 282-349) *)

Module Summary.
Record t : Type := mk {
  group : group;
  treatment_rate : float64;
  effect_size : float64;
  p_value : float64;
  significant : bool
}.
End Summary.

Definition summarize (grp : group) (result : test_result) : Summary.t :=
  {| Summary.group := grp;
     Summary.treatment_rate := treatment_rate result;
     Summary.effect_size := effect_size result;
     Summary.p_value := p_value result;
     Summary.significant := significant result |}.

Definition statistical_tests (df : frame) : py (list Summary.t) :=
  let control_data := group_outcomes df A in
  for_each
    (fun grp =>
       let treatment_data := group_outcomes df grp in
       result <- perform_ab_test control_data treatment_data default_alpha ;;
       Returned (summarize grp result))
    [B; C; D].

(** ** Impact per treatment ([business_impact_analysis], lines 351-399) *)

Definition total_projects_per_year : float64 := Fin 100000.

Definition business_impact_analysis (df : frame)
  : py (list (group * impact)) :=
  results_summary <- statistical_tests df ;;
  let control_rate := series_mean (group_outcomes df A) in
  Returned
    (map (fun result =>
            (Summary.group result,
             calculate_business_impact control_rate
               (Summary.treatment_rate result)
               total_projects_per_year default_avg_project_cost))
         results_summary).

(** ** Recommendation ([generate_recommendations], lines 401-440) *)

(** [Series.idxmax()] and [Series.idxmin()] on the treatment rates: the
    first entry that no other entry beats, [nan] entries being skipped;
    nothing when every entry is [nan] (the lookup that follows then
    fails). *)
Fixpoint first_best (better : float64 -> float64 -> bool)
  (l : list Summary.t) : option Summary.t :=
  match l with
  | [] => None
  | x :: rest =>
      match first_best better rest with
      | None =>
          match Summary.treatment_rate x with
          | NaN => None
          | _ => Some x
          end
      | Some y =>
          match Summary.treatment_rate x with
          | NaN => Some y
          | _ =>
              if better (Summary.treatment_rate y) (Summary.treatment_rate x)
              then Some y else Some x
          end
      end
  end.

Definition idxmax (l : list Summary.t) : option Summary.t :=
  first_best (fun y x => fltb x y) l.

Definition idxmin (l : list Summary.t) : option Summary.t :=
  first_best (fun y x => fltb y x) l.

Inductive advice : Type :=
| Implement (grp : group) (expected_improvement : float64)
| NoSignificantImprovement.

Record recommendation : Type := mk_recommendation {
  best_treatment : Summary.t;
  worst_treatment : Summary.t;
  advised : advice
}.

Definition recommend (results : list Summary.t) : option recommendation :=
  match idxmax results, idxmin results with
  | Some best, Some worst =>
      Some {| best_treatment := best;
              worst_treatment := worst;
              advised :=
                if Summary.significant best
                then Implement (Summary.group best)
                       (fmul (Summary.effect_size best) (Fin 100))
                else NoSignificantImprovement |}
  | _, _ => None
  end.

Definition generate_recommendations (df : frame)
  : py (option recommendation) :=
  results_summary <- statistical_tests df ;;
  Returned (recommend results_summary).

(** What the simulation guarantees about a row and its outcome. *)
Definition simulated (r : row) (v : Z) : Prop :=
  (v = project_is_approved r \/ (project_is_approved r = 1%Z /\ v = 0%Z)) /\
  (draws_on r = false -> v = project_is_approved r).

(** The summary entry of a treatment group that can be tested. *)
Definition summary_of (df : frame) (grp : group) : Summary.t :=
  summarize grp
    (expected_result (group_outcomes df A) (group_outcomes df grp)
       default_alpha).

(** The treatment rate of a summary entry as a real number. *)
Definition rate_of (x : Summary.t) : R :=
  match Summary.treatment_rate x with
  | Fin q => q
  | _ => 0
  end.

Definition finite_rate (x : Summary.t) : Prop :=
  exists q, Summary.treatment_rate x = Fin q.

(** ** Example data *)

Definition tagged (grp : group) (label len v : Z) : row * Z :=
  ({| project_is_approved := label; essay_length := len; test_group := grp |},
   v).

(** A small frame after the experiment: two control rows and a few rows in
    each treatment group. *)
Definition example_frame : frame :=
  [tagged A 1 900 1; tagged A 0 900 0;
   tagged B 1 900 1; tagged B 1 700 1; tagged B 1 600 0;
   tagged C 1 1100 1; tagged C 0 400 0;
   tagged D 1 1000 0; tagged D 1 1500 1; tagged D 1 1300 1]%Z.

Definition example_entry (grp : group) (rt e : R) : Summary.t :=
  {| Summary.group := grp;
     Summary.treatment_rate := Fin rt;
     Summary.effect_size := Fin e;
     Summary.p_value := Fin (1 / 1000);
     Summary.significant := true |}.

(** Three treatments that all do significantly worse than a control
    group with rate 0.9. *)
Definition example_summary : list Summary.t :=
  [example_entry B (7 / 10) (- (2 / 10));
   example_entry C (8 / 10) (- (1 / 10));
   example_entry D (8 / 10) (- (1 / 10))].

(** A generator stream whose word at position 2 starts with the bits 11;
    all other words are 0. *)
Definition example_stream : rng :=
  fun n => if (n =? 2)%nat then 3221225472%Z else 0%Z.

(** ** Finding the dataset file ([get_data.py], lines 13-18) *)

Module GetData.
Import Ascii String.
Local Open Scope string_scope.

Inductive error : Type :=
| FileNotFoundError.  (* No CSV file found in the dataset folder. *)

(** [s.endswith(suffix)]. *)
Fixpoint endswith (s suffix : string) : bool :=
  (s =? suffix)
  || match s with
     | EmptyString => false
     | String _ rest => endswith rest suffix
     end.

(** [next((f for f in files if f.endswith(".csv")), None)]. *)
Fixpoint first_csv (files : list string) : option string :=
  match files with
  | nil => None
  | f :: rest => if endswith f ".csv" then Some f else first_csv rest
  end.

(** [os.path.join(path, name)] on a POSIX system. *)
Definition path_join (path name : string) : string :=
  if prefix "/" name then name
  else if (path =? "") || endswith path "/" then path ++ name
  else path ++ "/" ++ name.

Definition csv_path (path : string) (files : list string)
  : error + string :=
  match first_csv files with
  | None => inl FileNotFoundError
  | Some csv_file => inr (path_join path csv_file)
  end.

End GetData.

(** ** The same lines in binary64

    The rates and the effect size of [perform_ab_test] (lines 287-303) and
    the value [n] of [calculate_sample_size] (lines 148-150), evaluated
    with IEEE 754 binary64 operations as NumPy evaluates them.  Counts are
    NumPy [int64] values; they are converted to [float64] by the true
    division, exactly for the counts below [2^53] that occur here.  The
    two quantiles of [calculate_sample_size] are arguments, since
    [norm.ppf] is library code. *)

Module Binary64.
Import PrimFloat.
Local Open Scope float_scope.

Definition of_int (z : Z) : float := of_uint63 (Uint63.of_Z z).

Definition effect_size (control_data treatment_data : series) : float :=
  let control_approved := series_sum control_data in
  let control_total := series_len control_data in
  let treatment_approved := series_sum treatment_data in
  let treatment_total := series_len treatment_data in
  let control_rate := of_int control_approved / of_int control_total in
  let treatment_rate := of_int treatment_approved / of_int treatment_total in
  treatment_rate - control_rate.

Definition calculate_sample_size_n (z_alpha z_beta p1 p2 : float) : float :=
  let p_avg := (p1 + p2) / 2 in
  let ratio :=
    (z_alpha * sqrt (2 * p_avg * (1 - p_avg))
     + z_beta * sqrt (p1 * (1 - p1) + p2 * (1 - p2))) / (p2 - p1) in
  2 * (ratio * ratio).

(** The rational number that a finite binary64 value stands for. *)
Definition to_Q (x : float) : option Q :=
  match FloatOps.Prim2SF x with
  | SpecFloat.S754_zero _ => Some 0%Q
  | SpecFloat.S754_finite s m e =>
      Some ((if s then - (Zpos m # 1) else (Zpos m # 1))
            * Qpower (2 # 1) e)%Q
  | _ => None
  end.

End Binary64.

(** ** The normal distribution: numerical facts

    A lower bound on the Gaussian integral comes from the Taylor
    polynomials of [exp (- y)], which bracket it on the non-negative
    reals, integrated term by term. *)

Lemma exp_taylor_0 (n : nat) : exp_taylor n 0 = 1.
Proof.
  induction n as [|n IH]; [reflexivity|].
  cbn [exp_taylor]. rewrite IH, Ropp_0, pow_ne_zero by discriminate.
  unfold Rdiv. ring.
Qed.

Lemma monomial_deriv (m : nat) (y : R) :
  derivable_pt_lim (fun t => (- t) ^ (S m) / INR (fact (S m))) y
    (- ((- y) ^ m / INR (fact m))).
Proof.
  assert (Hf : INR (fact m) <> 0) by apply INR_fact_neq_0.
  assert (Hs : INR (S m) <> 0) by (apply not_0_INR; discriminate).
  pose proof (derivable_pt_lim_comp (- id)%F (fun t => t ^ S m) y (-1)
                (INR (S m) * (- y) ^ pred (S m))) as H.
  assert (H1 : derivable_pt_lim (- id)%F y (-1))
    by (apply derivable_pt_lim_opp, derivable_pt_lim_id).
  specialize (H H1 (derivable_pt_lim_pow ((- id)%F y) (S m))).
  apply (derivable_pt_lim_scal _ (/ INR (fact (S m)))) in H.
  replace (- ((- y) ^ m / INR (fact m)))
    with (/ INR (fact (S m)) * (INR (S m) * (- y) ^ pred (S m) * -1)).
  - revert H. apply derivable_pt_lim_ext.
    intros z. unfold mult_real_fct, comp, opp_fct, id. unfold Rdiv. ring.
  - rewrite fact_simpl, mult_INR. cbn [pred]. field. split; assumption.
Qed.

Lemma exp_taylor_deriv (n : nat) (y : R) :
  derivable_pt_lim (exp_taylor (S n)) y (- exp_taylor n y).
Proof.
  induction n as [|n IH].
  - pose proof (monomial_deriv 0 y) as H.
    eapply derivable_pt_lim_ext with
      (f := (fct_cte 1 + (fun t => ((- t) ^ 1 / INR (fact 1))%R))%F).
    + intros z. reflexivity.
    + replace (- exp_taylor 0 y) with (0 + - ((- y) ^ 0 / INR (fact 0))).
      * apply derivable_pt_lim_plus; [apply derivable_pt_lim_const|exact H].
      * simpl. field.
  - eapply derivable_pt_lim_ext with
      (f := (exp_taylor (S n)
             + (fun t => ((- t) ^ (S (S n)) / INR (fact (S (S n))))%R))%F).
    + intros z. reflexivity.
    + replace (- exp_taylor (S n) y)
        with (- exp_taylor n y + - ((- y) ^ (S n) / INR (fact (S n)))).
      * apply derivable_pt_lim_plus; [exact IH|apply monomial_deriv].
      * cbn [exp_taylor]. ring.
Qed.

Lemma exp_opp_deriv (y : R) :
  derivable_pt_lim (fun t => exp (- t)) y (- exp (- y)).
Proof.
  pose proof (derivable_pt_lim_comp (- id)%F exp y (-1) (exp (- y))) as H.
  replace (- exp (- y)) with (exp (- y) * -1) by ring.
  apply H.
  - apply derivable_pt_lim_opp, derivable_pt_lim_id.
  - apply derivable_pt_lim_exp.
Qed.

(** A function with a non-negative derivative on the non-negative reals
    does not go below its value at zero there. *)
Lemma increasing_from_zero (f f' : R -> R) :
  (forall x, derivable_pt_lim f x (f' x)) ->
  (forall x, 0 <= x -> 0 <= f' x) ->
  forall x, 0 <= x -> f 0 <= f x.
Proof.
  intros Hd Hpos x Hx.
  destruct (Req_dec x 0) as [->|Hne]; [lra|].
  set (pr := fun t => exist (fun l => derivable_pt_lim f t l) (f' t) (Hd t)).
  apply (derive_increasing_interv_var 0 x f pr); try lra.
  intros t Ht. simpl. apply Hpos. lra.
Qed.

Lemma exp_taylor_bounds (n : nat) :
  forall y, 0 <= y ->
  exp_taylor (2 * n + 1) y <= exp (- y) <= exp_taylor (2 * n) y.
Proof.
  induction n as [|n IH]; intros y Hy.
  - simpl. split.
    + pose proof (exp_ineq1_le (- y)). lra.
    + rewrite <- exp_0. destruct (Req_dec y 0) as [->|Hne].
      * rewrite Ropp_0. lra.
      * left. apply exp_increasing. lra.
  - replace (2 * S n)%nat with (S (2 * n + 1)) by lia.
    replace (S (2 * n + 1) + 1)%nat with (S (S (2 * n + 1))) by lia.
    assert (Hup : forall z,
               0 <= z -> exp (- z) <= exp_taylor (S (2 * n + 1)) z).
    { intros z Hz.
      pose proof (increasing_from_zero
        (fun t => exp_taylor (S (2 * n + 1)) t - exp (- t))
        (fun t => - exp_taylor (2 * n + 1) t - - exp (- t))) as H.
      cbv beta in H. rewrite exp_taylor_0, Ropp_0, exp_0 in H.
      enough (1 - 1 <= exp_taylor (S (2 * n + 1)) z - exp (- z)) by lra.
      apply H; [| |exact Hz].
      - intros x. apply derivable_pt_lim_minus;
          [apply exp_taylor_deriv|apply exp_opp_deriv].
      - intros x Hx0. destruct (IH x Hx0). lra. }
    split; [|apply Hup, Hy].
    pose proof (increasing_from_zero
      (fun t => exp (- t) - exp_taylor (S (S (2 * n + 1))) t)
      (fun t => - exp (- t) - - exp_taylor (S (2 * n + 1)) t)) as H.
    cbv beta in H. rewrite exp_taylor_0, Ropp_0, exp_0 in H.
    enough (1 - 1 <= exp (- y) - exp_taylor (S (S (2 * n + 1))) y) by lra.
    apply H; [| |exact Hy].
    + intros x. apply derivable_pt_lim_minus;
        [apply exp_opp_deriv|apply exp_taylor_deriv].
    + intros x Hx0. specialize (Hup x Hx0). lra.
Qed.

Lemma gauss_poly_int_0 (n : nat) : gauss_poly_int n 0 = 0.
Proof.
  induction n as [|n IH]; [reflexivity|].
  cbn [gauss_poly_int]. rewrite IH, pow_ne_zero by lia. ring.
Qed.

Lemma half_square_pow (k : nat) (x : R) :
  (- (x * x / 2)) ^ k = (- (1 / 2)) ^ k * x ^ (2 * k).
Proof.
  replace (- (x * x / 2)) with (- (1 / 2) * (x * x)) by field.
  rewrite Rpow_mult_distr, pow_mult. f_equal. f_equal. simpl. ring.
Qed.

Lemma gauss_poly_int_deriv (n : nat) (x : R) :
  derivable_pt_lim (gauss_poly_int n) x (exp_taylor n (x * x / 2)).
Proof.
  induction n as [|n IH].
  - simpl. apply (derivable_pt_lim_id x).
  - cbn [gauss_poly_int exp_taylor].
    apply derivable_pt_lim_ext with
      (f := (gauss_poly_int n
             + mult_real_fct
                 ((- (1 / 2)) ^ (S n) / (INR (fact (S n)) * INR (2 * S n + 1)))
                 (fun t => (t ^ (2 * S n + 1))%R))%F).
    + intros z. reflexivity.
    + apply derivable_pt_lim_plus; [exact IH|].
      rewrite half_square_pow.
      replace ((- (1 / 2)) ^ S n * x ^ (2 * S n) / INR (fact (S n)))
        with ((- (1 / 2)) ^ (S n) / (INR (fact (S n)) * INR (2 * S n + 1))
              * (INR (2 * S n + 1) * x ^ pred (2 * S n + 1))).
      * apply derivable_pt_lim_scal, derivable_pt_lim_pow.
      * replace (pred (2 * S n + 1)) with (2 * S n)%nat by lia.
        field. split; [apply INR_fact_neq_0|apply not_0_INR; lia].
Qed.

Lemma exp_taylor_square_continuity (n : nat) :
  continuity (fun x => exp_taylor n (x * x / 2)).
Proof.
  induction n as [|n IH].
  - simpl. apply continuity_const. intros x y. reflexivity.
  - cbn [exp_taylor].
    apply (continuity_plus _
             (fun x => (- (x * x / 2)) ^ S n / INR (fact (S n))) IH).
    reg.
Qed.

Lemma gauss_lower (n : nat) (t : R) :
  exp_taylor (2 * n + 1) (t * t / 2) <= gauss t.
Proof.
  unfold gauss. replace (- (t * t) / 2) with (- (t * t / 2)) by field.
  apply exp_taylor_bounds. nra.
Qed.

Lemma gauss_int_lower (n : nat) (x : R) :
  0 <= x -> gauss_poly_int (2 * n + 1) x <= gauss_int x.
Proof.
  intros Hx. unfold gauss_int.
  set (F := mkC1 (c1 := gauss_poly_int (2 * n + 1))
              (diff0 := fun t =>
                 exist _ (exp_taylor (2 * n + 1) (t * t / 2))
                       (gauss_poly_int_deriv (2 * n + 1) t))
              (exp_taylor_square_continuity (2 * n + 1))).
  pose proof (FTC_Riemann F (RiemannInt_P32 F 0 x)) as H.
  change (c1 F) with (gauss_poly_int (2 * n + 1)) in H.
  rewrite gauss_poly_int_0, Rminus_0_r in H. rewrite <- H.
  apply RiemannInt_P19; [exact Hx|].
  intros t _. apply gauss_lower.
Qed.

Lemma PI_upper : PI < 31421 / 10000.
Proof.
  destruct (PI_2_3_7_ineq 1) as [_ H].
  unfold PI_2_3_7_tg, tg_alt, Ratan_seq in H. simpl in H. lra.
Qed.

Lemma sqrt_2PI_upper : sqrt (2 * PI) < 25069 / 10000.
Proof.
  pose proof PI_upper. pose proof PI_RGT_0.
  rewrite <- (sqrt_square (25069 / 10000)) by lra.
  apply sqrt_lt_1; lra.
Qed.

Lemma sqrt_2PI_pos : 0 < sqrt (2 * PI).
Proof. apply sqrt_lt_R0. pose proof PI_RGT_0. lra. Qed.

Lemma gauss_poly_int_7_2 : gauss_poly_int 7 2 = 269294 / 225225.
Proof.
  cbn [gauss_poly_int]. rewrite !INR_IZR_INZ.
  cbn [fact Nat.mul Nat.add Z.of_nat Pos.of_succ_nat Pos.succ].
  lra.
Qed.

Lemma gauss_int_2_lower : 269294 / 225225 <= gauss_int 2.
Proof.
  rewrite <- gauss_poly_int_7_2. apply (gauss_int_lower 3). lra.
Qed.

Lemma gauss_range (t : R) : 0 < gauss t <= 1.
Proof.
  unfold gauss. split; [apply exp_pos|].
  rewrite <- exp_0. destruct (Req_dec t 0) as [->|Hne].
  - right. f_equal. field.
  - left. apply exp_increasing. nra.
Qed.

Lemma gauss_int_0 : gauss_int 0 = 0.
Proof. apply RiemannInt_P9. Qed.

Lemma gauss_int_increment (a b : R) :
  0 <= a <= b -> 0 <= gauss_int b - gauss_int a <= b - a.
Proof.
  intros [Ha Hab]. unfold gauss_int.
  rewrite <- (RiemannInt_P26 (gauss_integrable 0 a) (gauss_integrable a b)
                (gauss_integrable 0 b)).
  pose proof (RiemannInt_P19 (RiemannInt_P14 a b 0) (gauss_integrable a b) Hab)
    as Hlo.
  pose proof (RiemannInt_P19 (gauss_integrable a b) (RiemannInt_P14 a b 1) Hab)
    as Hhi.
  rewrite RiemannInt_P15 in Hlo, Hhi.
  assert (0 * (b - a) <= RiemannInt (gauss_integrable a b)).
  { apply Hlo. intros x _. unfold fct_cte. left. apply gauss_range. }
  assert (RiemannInt (gauss_integrable a b) <= 1 * (b - a)).
  { apply Hhi. intros x _. unfold fct_cte. apply gauss_range. }
  lra.
Qed.

Lemma gauss_int_nonneg (z : R) : 0 <= z -> 0 <= gauss_int z.
Proof.
  intros Hz. pose proof (gauss_int_increment 0 z) as H.
  rewrite gauss_int_0 in H. lra.
Qed.

Lemma norm_cdf_nonneg_arg (z : R) :
  0 <= z -> norm_cdf z = 1 / 2 + gauss_int z / sqrt (2 * PI).
Proof.
  intros Hz. unfold norm_cdf. destruct (Rle_dec 0 z); [reflexivity|lra].
Qed.

Lemma norm_cdf_0 : norm_cdf 0 = 1 / 2.
Proof.
  rewrite norm_cdf_nonneg_arg by lra. rewrite gauss_int_0. unfold Rdiv. ring.
Qed.

Lemma norm_cdf_le_half (z : R) : z <= 0 -> norm_cdf z <= 1 / 2.
Proof.
  intros Hz. destruct (Req_dec z 0) as [->|Hne]; [rewrite norm_cdf_0; lra|].
  unfold norm_cdf. destruct (Rle_dec 0 z); [lra|].
  pose proof (gauss_int_nonneg (- z)) as H.
  pose proof sqrt_2PI_pos as Hc.
  assert (0 <= gauss_int (- z) / sqrt (2 * PI)).
  { apply Rmult_le_pos; [apply H; lra|]. left. now apply Rinv_0_lt_compat. }
  lra.
Qed.

Lemma norm_cdf_increasing (a b : R) :
  0 <= a <= b -> norm_cdf a <= norm_cdf b.
Proof.
  intros Hab. rewrite !norm_cdf_nonneg_arg by lra.
  pose proof (gauss_int_increment a b Hab) as H.
  pose proof sqrt_2PI_pos as Hc.
  apply Rplus_le_compat_l. unfold Rdiv.
  apply Rmult_le_compat_r; [left; now apply Rinv_0_lt_compat|lra].
Qed.

Lemma norm_cdf_2 : 975 / 1000 < norm_cdf 2.
Proof.
  rewrite norm_cdf_nonneg_arg by lra.
  pose proof gauss_int_2_lower as Hg.
  pose proof sqrt_2PI_upper as Hu. pose proof sqrt_2PI_pos as Hp.
  enough (475 / 1000 < gauss_int 2 / sqrt (2 * PI)) by lra.
  apply Rmult_lt_reg_r with (sqrt (2 * PI)); [exact Hp|].
  unfold Rdiv at 2. rewrite Rmult_assoc, Rinv_l by lra. nra.
Qed.

Lemma chi2_sf_real_0 : chi2_sf_real 0 = 1.
Proof. unfold chi2_sf_real. rewrite sqrt_0, norm_cdf_0. field. Qed.

Lemma chi2_sf_real_tail (x : R) : 4 <= x -> chi2_sf_real x < 5 / 100.
Proof.
  intros Hx. unfold chi2_sf_real.
  assert (H2 : 2 <= sqrt x).
  { replace 2 with (sqrt (2 * 2)) by (apply sqrt_square; lra).
    apply sqrt_le_1; lra. }
  pose proof (norm_cdf_increasing 2 (sqrt x)) as Hm.
  pose proof norm_cdf_2. lra.
Qed.

(** An upper bound on the Gaussian integral, from the Taylor polynomials
    of even degree. *)
Lemma gauss_upper (n : nat) (t : R) :
  gauss t <= exp_taylor (2 * n) (t * t / 2).
Proof.
  unfold gauss. replace (- (t * t) / 2) with (- (t * t / 2)) by field.
  apply exp_taylor_bounds. nra.
Qed.

Lemma gauss_int_upper (n : nat) (x : R) :
  0 <= x -> gauss_int x <= gauss_poly_int (2 * n) x.
Proof.
  intros Hx. unfold gauss_int.
  set (F := mkC1 (c1 := gauss_poly_int (2 * n))
              (diff0 := fun t =>
                 exist _ (exp_taylor (2 * n) (t * t / 2))
                       (gauss_poly_int_deriv (2 * n) t))
              (exp_taylor_square_continuity (2 * n))).
  pose proof (FTC_Riemann F (RiemannInt_P32 F 0 x)) as H.
  change (c1 F) with (gauss_poly_int (2 * n)) in H.
  rewrite gauss_poly_int_0, Rminus_0_r in H. rewrite <- H.
  apply RiemannInt_P19; [exact Hx|].
  intros t _. apply gauss_upper.
Qed.

Lemma PI_lower : 31415 / 10000 < PI.
Proof.
  destruct (PI_2_3_7_ineq 1) as [H _].
  unfold PI_2_3_7_tg, tg_alt, Ratan_seq in H. simpl in H. lra.
Qed.

Lemma sqrt_2PI_lower : 25065 / 10000 < sqrt (2 * PI).
Proof.
  pose proof PI_lower.
  rewrite <- (sqrt_square (25065 / 10000)) by lra.
  apply sqrt_lt_1; lra.
Qed.

Lemma gauss_poly_int_8_upper : gauss_poly_int 8 (51 / 25) < 1202 / 1000.
Proof.
  cbn [gauss_poly_int]. rewrite !INR_IZR_INZ.
  cbn [fact Nat.mul Nat.add Z.of_nat Pos.of_succ_nat Pos.succ].
  lra.
Qed.

Lemma gauss_int_51_25_upper : gauss_int (51 / 25) < 1202 / 1000.
Proof.
  pose proof (gauss_int_upper 4 (51 / 25)) as H.
  pose proof gauss_poly_int_8_upper.
  change (2 * 4)%nat with 8%nat in H. lra.
Qed.

Lemma norm_cdf_51_25 : norm_cdf (51 / 25) < 98 / 100.
Proof.
  rewrite norm_cdf_nonneg_arg by lra.
  pose proof gauss_int_51_25_upper as Hg.
  pose proof sqrt_2PI_lower as Hl.
  enough (gauss_int (51 / 25) / sqrt (2 * PI) < 48 / 100) by lra.
  apply Rmult_lt_reg_r with (sqrt (2 * PI)); [lra|].
  unfold Rdiv at 1. rewrite Rmult_assoc, Rinv_l by lra. nra.
Qed.

(** Up to [2.04^2] the chi-square tail is still above 0.04. *)
Lemma chi2_sf_real_head (x : R) :
  0 <= x <= 2601 / 625 -> 4 / 100 < chi2_sf_real x.
Proof.
  intros [H0 Hx]. unfold chi2_sf_real.
  assert (H2 : sqrt x <= 51 / 25).
  { replace (51 / 25) with (sqrt (51 / 25 * (51 / 25)))
      by (apply sqrt_square; lra).
    apply sqrt_le_1; lra. }
  pose proof (sqrt_pos x) as Hs.
  pose proof (norm_cdf_increasing (sqrt x) (51 / 25)) as Hm.
  pose proof norm_cdf_51_25. lra.
Qed.

Lemma lipschitz_continuity (f : R -> R) (K : R) :
  0 < K ->
  (forall x y, Rabs (f x - f y) <= K * Rabs (x - y)) ->
  continuity f.
Proof.
  intros HK Hl x. unfold continuity_pt, continue_in, limit1_in, limit_in.
  intros eps Heps. exists (eps / K). split.
  - apply Rdiv_lt_0_compat; assumption.
  - intros y [_ Hd]. simpl in *. unfold R_dist in *.
    apply Rle_lt_trans with (K * Rabs (y - x)); [apply Hl|].
    apply Rmult_lt_reg_r with (/ K); [now apply Rinv_0_lt_compat|].
    replace (K * Rabs (y - x) * / K) with (Rabs (y - x)) by (field; lra).
    exact Hd.
Qed.

Lemma gauss_int_abs_lipschitz (x y : R) :
  Rabs (gauss_int (Rabs x) - gauss_int (Rabs y)) <= 1 * Rabs (x - y).
Proof.
  rewrite Rmult_1_l.
  apply Rle_trans with (Rabs (Rabs x - Rabs y)); [|apply Rabs_triang_inv2].
  pose proof (Rabs_pos x) as Hx. pose proof (Rabs_pos y) as Hy.
  destruct (Rle_dec (Rabs x) (Rabs y)) as [Hle|Hgt].
  - pose proof (gauss_int_increment (Rabs x) (Rabs y) (conj Hx Hle)) as H.
    rewrite (Rabs_left1 (gauss_int (Rabs x) - gauss_int (Rabs y))) by lra.
    rewrite (Rabs_left1 (Rabs x - Rabs y)) by lra. lra.
  - assert (Hle : Rabs y <= Rabs x) by lra.
    pose proof (gauss_int_increment (Rabs y) (Rabs x) (conj Hy Hle)) as H.
    rewrite (Rabs_right (gauss_int (Rabs x) - gauss_int (Rabs y))) by lra.
    rewrite (Rabs_right (Rabs x - Rabs y)) by lra. lra.
Qed.

Lemma norm_cdf_value (q : R) :
  1 / 2 <= q <= 975 / 1000 -> exists z, 0 <= z <= 2 /\ norm_cdf z = q.
Proof.
  intros [Hlo Hhi].
  destruct (Req_dec q (1 / 2)) as [->|Hne].
  { exists 0. split; [lra|apply norm_cdf_0]. }
  set (f := fun z => 1 / 2 + gauss_int (Rabs z) / sqrt (2 * PI) - q).
  assert (Hcont : continuity f).
  { pose proof sqrt_2PI_pos as Hc.
    apply lipschitz_continuity with (K := / sqrt (2 * PI)).
    - now apply Rinv_0_lt_compat.
    - intros x y. unfold f.
      replace (1 / 2 + gauss_int (Rabs x) / sqrt (2 * PI) - q
               - (1 / 2 + gauss_int (Rabs y) / sqrt (2 * PI) - q))
        with (/ sqrt (2 * PI) * (gauss_int (Rabs x) - gauss_int (Rabs y)))
        by (field; lra).
      rewrite Rabs_mult, (Rabs_right (/ sqrt (2 * PI))).
      + apply Rmult_le_compat_l.
        * left. now apply Rinv_0_lt_compat.
        * pose proof (gauss_int_abs_lipschitz x y). lra.
      + apply Rle_ge. left. now apply Rinv_0_lt_compat. }
  assert (Hf0 : f 0 < 0).
  { unfold f. rewrite Rabs_R0, gauss_int_0. unfold Rdiv at 2. lra. }
  assert (Hf2 : 0 < f 2).
  { unfold f. rewrite Rabs_right by lra. pose proof norm_cdf_2 as H.
    rewrite norm_cdf_nonneg_arg in H by lra. lra. }
  destruct (IVT_interv f 0 2) as [z [Hz Hfz]]; try assumption; try lra.
  { intros a _. apply Hcont. }
  exists z. split; [exact Hz|].
  rewrite norm_cdf_nonneg_arg by lra.
  unfold f in Hfz. rewrite Rabs_right in Hfz by lra. lra.
Qed.

Lemma norm_quantile_spec (q : R) :
  1 / 2 <= q <= 975 / 1000 -> norm_cdf (norm_quantile q) = q.
Proof.
  intros Hq. unfold norm_quantile. apply epsilon_spec.
  destruct (norm_cdf_value q Hq) as [z [_ Hz]]. now exists z.
Qed.

Lemma norm_quantile_pos (q : R) :
  1 / 2 < q <= 975 / 1000 -> 0 < norm_quantile q.
Proof.
  intros Hq. pose proof (norm_quantile_spec q) as H.
  destruct (Rlt_dec 0 (norm_quantile q)) as [Hpos|Hneg]; [exact Hpos|].
  pose proof (norm_cdf_le_half (norm_quantile q)). lra.
Qed.

Lemma norm_quantile_below_2 (q : R) :
  1 / 2 <= q <= 975 / 1000 -> norm_quantile q < 2.
Proof.
  intros Hq. pose proof (norm_quantile_spec q Hq) as H.
  destruct (Rlt_dec (norm_quantile q) 2) as [Hlt|Hge]; [exact Hlt|].
  pose proof (norm_cdf_increasing 2 (norm_quantile q)) as Hm.
  pose proof norm_cdf_2. lra.
Qed.

(** ** Arithmetic on finite values *)

Lemma fdiv_Fin (x y : R) : y <> 0 -> fdiv (Fin x) (Fin y) = Fin (x / y).
Proof.
  intros Hy. simpl. destruct (Req_dec_T y 0); [contradiction|reflexivity].
Qed.

Lemma fdiv_zero_zero : fdiv (Fin 0) (Fin 0) = NaN.
Proof.
  simpl. destruct (Req_dec_T 0 0) as [_|H]; [reflexivity|now elim H].
Qed.

Lemma fsqrt_Fin (x : R) : 0 <= x -> fsqrt (Fin x) = Fin (sqrt x).
Proof.
  intros Hx. simpl. destruct (Rlt_dec x 0); [lra|reflexivity].
Qed.

Lemma fsqrt_neg (x : R) : x < 0 -> fsqrt (Fin x) = NaN.
Proof.
  intros Hx. simpl. destruct (Rlt_dec x 0); [reflexivity|lra].
Qed.

Lemma feqb_Fin_false (x y : R) : x <> y -> feqb (Fin x) (Fin y) = false.
Proof.
  intros H. simpl. destruct (Req_dec_T x y); [contradiction|reflexivity].
Qed.

Lemma feqb_Fin_true (x : R) : feqb (Fin x) (Fin x) = true.
Proof.
  simpl. destruct (Req_dec_T x x) as [_|H]; [reflexivity|now elim H].
Qed.

Lemma fltb_Fin (x y : R) :
  fltb (Fin x) (Fin y) = true <-> x < y.
Proof.
  simpl. destruct (Rlt_dec x y); split; intros; auto; discriminate.
Qed.

Lemma fltb_Fin_false (x y : R) :
  fltb (Fin x) (Fin y) = false <-> y <= x.
Proof.
  simpl. destruct (Rlt_dec x y); split; intros; auto; try discriminate; lra.
Qed.

Lemma Rsign_pos (x : R) : 0 < x -> Rsign x = 1.
Proof. intros H. unfold Rsign. destruct (Rlt_dec 0 x); [reflexivity|lra]. Qed.

Lemma Rsign_neg (x : R) : x < 0 -> Rsign x = -1.
Proof.
  intros H. unfold Rsign.
  destruct (Rlt_dec 0 x); [lra|]. destruct (Rlt_dec x 0); [reflexivity|lra].
Qed.

Lemma Rsign_zero : Rsign 0 = 0.
Proof.
  unfold Rsign. destruct (Rlt_dec 0 0); [lra|]. reflexivity.
Qed.

(** ** The ceiling *)

Lemma Int_part_IZR (z : Z) : Int_part (IZR z) = z.
Proof.
  unfold Int_part.
  rewrite <- (tech_up (IZR z) (z + 1));
    [lia | rewrite plus_IZR; lra | rewrite plus_IZR; lra].
Qed.

Lemma Rceil_IZR (z : Z) : Rceil (IZR z) = z.
Proof.
  unfold Rceil. rewrite <- opp_IZR, Int_part_IZR. lia.
Qed.

Lemma Rceil_bounds (x : R) : x <= IZR (Rceil x) < x + 1.
Proof.
  unfold Rceil. rewrite opp_IZR.
  destruct (base_Int_part (- x)) as [H1 H2]. lra.
Qed.

Lemma Rceil_le (x y : R) : x <= y -> (Rceil x <= Rceil y)%Z.
Proof.
  intros Hxy.
  pose proof (Rceil_bounds x) as Hx. pose proof (Rceil_bounds y) as Hy.
  assert (H : IZR (Rceil x) < IZR (Rceil y) + 1) by lra.
  rewrite <- plus_IZR in H. apply lt_IZR in H. lia.
Qed.

Lemma Rceil_pos (x : R) : 0 < x -> (0 < Rceil x)%Z.
Proof.
  intros Hx. pose proof (Rceil_bounds x) as H.
  apply lt_IZR. lra.
Qed.

Lemma int_of_float_ceil (x : R) :
  int_of_float (fceil (Fin x)) = Returned (Rceil x).
Proof.
  simpl. rewrite Int_part_IZR, Rceil_IZR.
  destruct (Rle_dec 0 (IZR (Rceil x))); reflexivity.
Qed.

(** ** [chi2_contingency] on a table with positive margins *)

Lemma yates_Fin (o e : R) : yates (Fin o) (Fin e) = Fin (yates_real o e).
Proof. reflexivity. Qed.

Lemma pearson_term_Fin (o e : R) :
  e <> 0 -> pearson_term (Fin o) (Fin e) = Fin (pearson_real o e).
Proof.
  intros He. unfold pearson_term, pearson_real.
  cbn [fsub fneg fadd fmul]. rewrite fdiv_Fin by exact He. reflexivity.
Qed.

Lemma any_negative_false (a b c d : Z) :
  (0 <= a)%Z -> (0 <= b)%Z -> (0 <= c)%Z -> (0 <= d)%Z ->
  any_negative ((a, b), (c, d)) = false.
Proof.
  intros. unfold any_negative.
  repeat (apply orb_false_intro); apply Z.ltb_ge; assumption.
Qed.

Lemma any_negative_inv (a b c d : Z) :
  any_negative ((a, b), (c, d)) = false ->
  (0 <= a)%Z /\ (0 <= b)%Z /\ (0 <= c)%Z /\ (0 <= d)%Z.
Proof.
  unfold any_negative. intros H.
  repeat (apply orb_false_elim in H; destruct H as [H ?]).
  repeat split; apply Z.ltb_ge; assumption.
Qed.

Lemma expected_freq_Fin (a b c d : Z) :
  IZR a + IZR b + IZR c + IZR d <> 0 ->
  expected_freq ((a, b), (c, d)) =
  tmap Fin (expected_real (IZR a) (IZR b) (IZR c) (IZR d)).
Proof.
  intros Hn. unfold expected_freq, expected_real.
  cbn [tmap of_Z tsum fadd fmul]. rewrite !fdiv_Fin by exact Hn.
  reflexivity.
Qed.

Lemma ratio_pos (r c n : R) : 0 < r -> 0 < c -> 0 < n -> 0 < r * c / n.
Proof.
  intros. apply Rdiv_lt_0_compat; [apply Rmult_lt_0_compat|]; assumption.
Qed.

(** With non-negative counts and four positive margins the routine
    returns, and its statistic and p-value are the closed forms. *)
Lemma chi2_contingency_returns (a b c d : Z) :
  (0 <= a)%Z -> (0 <= b)%Z -> (0 <= c)%Z -> (0 <= d)%Z ->
  (0 < a + b)%Z -> (0 < c + d)%Z -> (0 < a + c)%Z -> (0 < b + d)%Z ->
  let stat := chi2_stat (IZR a) (IZR b) (IZR c) (IZR d) in
  chi2_contingency ((a, b), (c, d)) =
  Returned (Fin stat, Fin (chi2_sf_real stat), 1%Z,
            tmap Fin (expected_real (IZR a) (IZR b) (IZR c) (IZR d))).
Proof.
  intros Ha Hb Hc Hd Hr0 Hr1 Hc0 Hc1 stat.
  assert (Hab : 0 < IZR a + IZR b) by (rewrite <- plus_IZR; now apply IZR_lt).
  assert (Hcd : 0 < IZR c + IZR d) by (rewrite <- plus_IZR; now apply IZR_lt).
  assert (Hac : 0 < IZR a + IZR c) by (rewrite <- plus_IZR; now apply IZR_lt).
  assert (Hbd : 0 < IZR b + IZR d) by (rewrite <- plus_IZR; now apply IZR_lt).
  assert (Hn : 0 < IZR a + IZR b + IZR c + IZR d) by lra.
  unfold chi2_contingency.
  rewrite any_negative_false by assumption.
  rewrite expected_freq_Fin by lra.
  subst stat. unfold chi2_stat, expected_real. cbv zeta.
  set (n := IZR a + IZR b + IZR c + IZR d) in *.
  pose proof (ratio_pos _ _ _ Hab Hac Hn) as H00.
  pose proof (ratio_pos _ _ _ Hab Hbd Hn) as H01.
  pose proof (ratio_pos _ _ _ Hcd Hac Hn) as H10.
  pose proof (ratio_pos _ _ _ Hcd Hbd Hn) as H11.
  cbn [tmap first_zero].
  rewrite !feqb_Fin_false by lra.
  unfold power_divergence. cbn [tmap2 tmap]. unfold of_Z.
  rewrite !yates_Fin, !pearson_term_Fin by lra.
  reflexivity.
Qed.

(** ** [chi2_contingency] on a degenerate table *)

Lemma first_zero_Fin_None (e00 e01 e10 e11 : R) :
  first_zero (tmap Fin ((e00, e01), (e10, e11))) = None <->
  e00 <> 0 /\ e01 <> 0 /\ e10 <> 0 /\ e11 <> 0.
Proof.
  cbn [tmap first_zero]. simpl feqb.
  destruct (Req_dec_T e00 0); [split; [discriminate|tauto]|].
  destruct (Req_dec_T e01 0); [split; [discriminate|tauto]|].
  destruct (Req_dec_T e10 0); [split; [discriminate|tauto]|].
  destruct (Req_dec_T e11 0); [split; [discriminate|tauto]|].
  tauto.
Qed.

Lemma ratio_nonzero (r c n : R) : r * c / n <> 0 -> r <> 0 /\ c <> 0.
Proof.
  intros H. split; intros ->; apply H; unfold Rdiv; ring.
Qed.

(** The routine returns only on a table of non-negative counts whose four
    margins are positive, or on the table of zeros. *)
Lemma chi2_contingency_inv (a b c d : Z) x :
  chi2_contingency ((a, b), (c, d)) = Returned x ->
  (0 <= a)%Z /\ (0 <= b)%Z /\ (0 <= c)%Z /\ (0 <= d)%Z /\
  ((0 < a + b)%Z /\ (0 < c + d)%Z /\ (0 < a + c)%Z /\ (0 < b + d)%Z
   \/ (a = 0 /\ b = 0 /\ c = 0 /\ d = 0)%Z).
Proof.
  unfold chi2_contingency.
  destruct (any_negative _) eqn:Hneg; [discriminate|].
  apply any_negative_inv in Hneg. destruct Hneg as (Ha & Hb & Hc & Hd).
  intros H. repeat (split; [assumption|]).
  destruct (Z.eq_dec (a + b + c + d) 0) as [Hz|Hnz]; [right; lia|left].
  assert (Hn : IZR a + IZR b + IZR c + IZR d <> 0).
  { rewrite <- !plus_IZR. intros E. apply eq_IZR in E. contradiction. }
  rewrite expected_freq_Fin in H by exact Hn.
  unfold expected_real in H. cbv zeta in H.
  destruct (first_zero _) as [[i j]|] eqn:Hfz; [discriminate|].
  apply first_zero_Fin_None in Hfz.
  destruct Hfz as (H00 & H01 & H10 & H11).
  apply ratio_nonzero in H00, H11. rewrite <- !plus_IZR in H00, H11.
  destruct H00 as [Hab Hac], H11 as [Hcd Hbd].
  assert (a + b <> 0)%Z by (intros E; apply Hab; now rewrite E).
  assert (a + c <> 0)%Z by (intros E; apply Hac; now rewrite E).
  assert (c + d <> 0)%Z by (intros E; apply Hcd; now rewrite E).
  assert (b + d <> 0)%Z by (intros E; apply Hbd; now rewrite E).
  lia.
Qed.

(** A table with a zero margin but a positive total is refused. *)
Lemma chi2_contingency_zero_margin (a b c d : Z) :
  (0 <= a)%Z -> (0 <= b)%Z -> (0 <= c)%Z -> (0 <= d)%Z ->
  (0 < a + b + c + d)%Z ->
  (a + b = 0 \/ c + d = 0 \/ a + c = 0 \/ b + d = 0)%Z ->
  exists i j,
    chi2_contingency ((a, b), (c, d)) = Raised (ValueError_expected_zero i j).
Proof.
  intros Ha Hb Hc Hd Hn Hm.
  destruct (chi2_contingency ((a, b), (c, d))) as [x|e] eqn:E.
  - apply chi2_contingency_inv in E. lia.
  - revert E. unfold chi2_contingency.
    rewrite any_negative_false by assumption.
    destruct (first_zero _) as [[i j]|]; [|discriminate].
    intros E. exists i, j. symmetry. exact E.
Qed.

(** On the table of zeros every expected frequency is [nan], the zero
    test does not fire, and [nan] is returned for the statistic and the
    p-value. *)
Lemma chi2_contingency_zeros :
  chi2_contingency ((0, 0), (0, 0))%Z =
  Returned (NaN, NaN, 1%Z, ((NaN, NaN), (NaN, NaN))).
Proof.
  unfold chi2_contingency. cbn [any_negative Z.ltb Z.compare orb].
  assert (E : expected_freq ((0, 0), (0, 0))%Z = ((NaN, NaN), (NaN, NaN))).
  { unfold expected_freq. cbn [tmap of_Z tsum fadd fmul].
    replace (0 + 0 + 0 + 0) with 0 by ring.
    replace ((0 + 0) * (0 + 0)) with 0 by ring.
    rewrite fdiv_zero_zero. reflexivity. }
  rewrite E. reflexivity.
Qed.

(** ** The tester on two samples *)

Lemma series_len_pos (s : series) : s <> [] -> (0 < series_len s)%Z.
Proof. destruct s; [congruence|]. intros _. unfold series_len. simpl. lia. Qed.

Lemma series_len_zero (s : series) : series_len s = 0%Z -> s = [].
Proof. destruct s; [reflexivity|]. unfold series_len. simpl. lia. Qed.

Lemma rate_range (s : series) :
  (0 <= series_sum s <= series_len s)%Z -> (0 < series_len s)%Z ->
  0 <= rate s <= 1.
Proof.
  intros [H0 H1] Hn. unfold rate.
  apply IZR_le in H0, H1. apply IZR_lt in Hn.
  split.
  - apply Rmult_le_pos; [exact H0|]. left. now apply Rinv_0_lt_compat.
  - apply Rmult_le_reg_r with (IZR (series_len s)); [exact Hn|].
    unfold Rdiv. rewrite Rmult_assoc, Rinv_l by lra. lra.
Qed.

Lemma boolean_sum_range (s : series) :
  boolean s -> (0 <= series_sum s <= series_len s)%Z.
Proof.
  unfold boolean, series_sum, series_len.
  induction 1 as [|x s Hx _ IH]; [simpl; lia|].
  cbn [fold_right length]. destruct Hx as [-> | ->]; lia.
Qed.

Lemma boolean_success (s : series) :
  boolean s -> In 1%Z s -> (0 < series_sum s)%Z.
Proof.
  intros Hb. pose proof (boolean_sum_range s Hb) as Hr. revert Hr.
  unfold series_sum, series_len.
  induction Hb as [|x s Hx Hs IH]; [contradiction|].
  pose proof (boolean_sum_range s Hs) as Hrs.
  unfold series_sum, series_len in Hrs.
  cbn [fold_right length In]. intros Hr [Hin|Hin].
  - subst x. lia.
  - specialize (IH Hrs Hin). destruct Hx as [-> | ->]; lia.
Qed.

Lemma boolean_failure (s : series) :
  boolean s -> In 0%Z s -> (series_sum s < series_len s)%Z.
Proof.
  intros Hb. unfold series_sum, series_len.
  induction Hb as [|x s Hx Hs IH]; [contradiction|].
  pose proof (boolean_sum_range s Hs) as Hrs.
  unfold series_sum, series_len in Hrs.
  cbn [fold_right length In]. intros [Hin|Hin].
  - subst x. lia.
  - specialize (IH Hin). destruct Hx as [-> | ->]; lia.
Qed.

(** Two non-empty boolean samples are testable as soon as a success and a
    failure occur among their pooled outcomes. *)
Lemma boolean_testable (control treatment : series) :
  boolean control -> boolean treatment ->
  control <> [] -> treatment <> [] ->
  In 1%Z (control ++ treatment) -> In 0%Z (control ++ treatment) ->
  testable control treatment.
Proof.
  intros Hb1 Hb2 Hc Ht H1 H0.
  pose proof (boolean_sum_range _ Hb1). pose proof (boolean_sum_range _ Hb2).
  pose proof (series_len_pos _ Hc). pose proof (series_len_pos _ Ht).
  unfold testable. repeat split; try lia.
  - apply in_app_or in H1. destruct H1 as [H1|H1].
    + pose proof (boolean_success _ Hb1 H1). lia.
    + pose proof (boolean_success _ Hb2 H1). lia.
  - apply in_app_or in H0. destruct H0 as [H0|H0].
    + pose proof (boolean_failure _ Hb1 H0). lia.
    + pose proof (boolean_failure _ Hb2 H0). lia.
Qed.

Lemma variance_term_nonneg (s : series) :
  (0 <= series_sum s <= series_len s)%Z -> (0 < series_len s)%Z ->
  0 <= rate s * (1 - rate s) / IZR (series_len s).
Proof.
  intros Hk Hn. pose proof (rate_range s Hk Hn) as Hr.
  apply IZR_lt in Hn.
  apply Rmult_le_pos; [|left; now apply Rinv_0_lt_compat].
  apply Rmult_le_pos; lra.
Qed.

Lemma perform_ab_test_returns (control treatment : series) (alpha : float64) :
  testable control treatment ->
  perform_ab_test control treatment alpha =
  Returned (expected_result control treatment alpha).
Proof.
  intros (Hk1 & Hk2 & Hn1 & Hn2 & Hpos & Hlt).
  unfold perform_ab_test. cbv zeta.
  rewrite chi2_contingency_returns by lia.
  cbv zeta. cbn [bind].
  pose proof (variance_term_nonneg control Hk1 Hn1) as Hv1.
  pose proof (variance_term_nonneg treatment Hk2 Hn2) as Hv2.
  apply IZR_lt in Hn1, Hn2.
  unfold of_Z. rewrite !fdiv_Fin by lra.
  fold (rate control). fold (rate treatment).
  cbn [fsub fneg fadd fmul]. rewrite !fdiv_Fin by lra.
  cbn [fadd]. rewrite fsqrt_Fin by lra.
  reflexivity.
Qed.

Lemma perform_ab_test_inv (control treatment : series) (alpha : float64) r :
  control <> [] \/ treatment <> [] ->
  perform_ab_test control treatment alpha = Returned r ->
  testable control treatment.
Proof.
  intros Hne. unfold perform_ab_test. cbv zeta.
  destruct (chi2_contingency _) as [x|e] eqn:E; [|discriminate].
  intros _. apply chi2_contingency_inv in E.
  destruct E as (Ha & Hb & Hc & Hd & [(H1 & H2 & H3 & H4)|(Z1 & Z2 & Z3 & Z4)]).
  - unfold testable. lia.
  - exfalso. destruct Hne as [Hne|Hne]; apply Hne, series_len_zero; lia.
Qed.

(** With both samples empty nothing is raised: every number of the result
    is [nan] and the flag is false. *)
Lemma perform_ab_test_both_empty (alpha : float64) :
  perform_ab_test [] [] alpha =
  Returned {| control_rate := NaN; treatment_rate := NaN;
              effect_size := NaN; p_value := NaN; significant := false;
              ci_lower := NaN; ci_upper := NaN |}.
Proof.
  unfold perform_ab_test. cbv zeta.
  change (series_sum []) with 0%Z. change (series_len []) with 0%Z.
  change (0 - 0)%Z with 0%Z. rewrite chi2_contingency_zeros.
  cbn [bind]. unfold of_Z. rewrite fdiv_zero_zero. reflexivity.
Qed.

Lemma perform_ab_test_raises_only_chi2 (control treatment : series)
  (alpha : float64) e :
  perform_ab_test control treatment alpha = Raised e ->
  chi2_contingency_error e.
Proof.
  unfold perform_ab_test. cbv zeta.
  destruct (chi2_contingency _) as [[[[chi2 p] dof] ex]|e'] eqn:E;
    cbn [bind]; [discriminate|].
  intros [= <-]. revert E. unfold chi2_contingency.
  destruct (any_negative _); [intros [= <-]; now left|].
  destruct (first_zero _) as [[i j]|]; [|discriminate].
  intros [= <-]. right. now exists i, j.
Qed.

(** ** Results about the tester *)

Lemma returned_result (control treatment : series) (alpha : float64) r :
  control <> [] -> treatment <> [] ->
  perform_ab_test control treatment alpha = Returned r ->
  testable control treatment /\ r = expected_result control treatment alpha.
Proof.
  intros Hc Ht H.
  assert (Hok : testable control treatment)
    by (apply (perform_ab_test_inv _ _ alpha r); auto).
  split; [exact Hok|].
  rewrite (perform_ab_test_returns _ _ alpha Hok) in H. congruence.
Qed.

(** C3: the confidence bounds of a returned result are the effect size
    minus and plus 1.96 standard errors. *)
Theorem confidence_bounds_formula (control treatment : series)
  (alpha : float64) (r : test_result) :
  control <> [] -> treatment <> [] ->
  perform_ab_test control treatment alpha = Returned r ->
  let p1 := rate control in
  let p2 := rate treatment in
  let n1 := IZR (series_len control) in
  let n2 := IZR (series_len treatment) in
  let effect := p2 - p1 in
  let se := sqrt (p1 * (1 - p1) / n1 + p2 * (1 - p2) / n2) in
  ci_lower r = Fin (effect - 196 / 100 * se) /\
  ci_upper r = Fin (effect + 196 / 100 * se).
Proof.
  intros Hc Ht H. destruct (returned_result _ _ _ _ Hc Ht H) as [_ ->].
  cbv zeta. split; reflexivity.
Qed.

(** C4: the effect size of a returned result is the treatment rate minus
    the control rate, its p-value is the chi-square tail of the table's
    statistic, and the flag is the test [p_value < alpha]. *)
Theorem effect_size_and_significance (control treatment : series)
  (alpha : float64) (r : test_result) :
  control <> [] -> treatment <> [] ->
  perform_ab_test control treatment alpha = Returned r ->
  effect_size r = Fin (rate treatment - rate control) /\
  p_value r = Fin (chi2_sf_real (sample_stat control treatment)) /\
  significant r = fltb (p_value r) alpha /\
  (forall a, alpha = Fin a ->
     (significant r = true <->
      chi2_sf_real (sample_stat control treatment) < a)).
Proof.
  intros Hc Ht H. destruct (returned_result _ _ _ _ Hc Ht H) as [_ ->].
  repeat split; try reflexivity.
  - intros Hs. subst alpha. now apply fltb_Fin in Hs.
  - intros Hs. subst alpha. now apply fltb_Fin.
Qed.




(** *** Samples with identical rates *)

Lemma yates_real_same (e : R) : yates_real e e = e.
Proof.
  unfold yates_real. replace (e - e) with 0 by ring.
  rewrite Rsign_zero. ring.
Qed.

Lemma yates_real_up (o e : R) : 1 / 2 <= e - o -> yates_real o e = o + 1 / 2.
Proof.
  intros H. unfold yates_real.
  rewrite Rabs_right, Rmin_left, Rsign_pos by lra. ring.
Qed.

Lemma yates_real_down (o e : R) :
  1 / 2 <= o - e -> yates_real o e = o - 1 / 2.
Proof.
  intros H. unfold yates_real.
  rewrite Rabs_left, Rmin_left, Rsign_neg by lra. ring.
Qed.

Lemma pearson_real_same (e : R) : pearson_real e e = 0.
Proof. unfold pearson_real, Rdiv. ring. Qed.

(** When the rows of the table are proportional, every expected frequency
    is the observed count and the statistic vanishes. *)
Lemma chi2_stat_proportional (a b c d : R) :
  a + b + c + d <> 0 -> a * d = b * c -> chi2_stat a b c d = 0.
Proof.
  intros Hn Hprop. unfold chi2_stat, expected_real. cbv zeta.
  replace ((a + b) * (a + c) / (a + b + c + d)) with a
    by (field_simplify_eq; [nra|exact Hn]).
  replace ((a + b) * (b + d) / (a + b + c + d)) with b
    by (field_simplify_eq; [nra|exact Hn]).
  replace ((c + d) * (a + c) / (a + b + c + d)) with c
    by (field_simplify_eq; [nra|exact Hn]).
  replace ((c + d) * (b + d) / (a + b + c + d)) with d
    by (field_simplify_eq; [nra|exact Hn]).
  rewrite !yates_real_same, !pearson_real_same. ring.
Qed.

Lemma sample_stat_identical_rates (control treatment : series) :
  testable control treatment -> rate control = rate treatment ->
  sample_stat control treatment = 0.
Proof.
  intros (Hk1 & Hk2 & Hn1 & Hn2 & Hpos & Hlt) Hr.
  unfold sample_stat, rate in *. rewrite !minus_IZR.
  apply IZR_lt in Hn1, Hn2.
  set (k1 := IZR (series_sum control)) in *.
  set (n1 := IZR (series_len control)) in *.
  set (k2 := IZR (series_sum treatment)) in *.
  set (n2 := IZR (series_len treatment)) in *.
  assert (Hcross : k1 * n2 = k2 * n1).
  { apply (f_equal (fun x => x * n1 * n2)) in Hr.
    field_simplify in Hr; lra. }
  apply chi2_stat_proportional; nra.
Qed.

Lemma identical_rates_result (control treatment : series) :
  testable control treatment -> rate control = rate treatment ->
  exists r,
    perform_ab_test control treatment default_alpha = Returned r /\
    effect_size r = Fin 0 /\ p_value r = Fin 1 /\ significant r = false.
Proof.
  intros Hok Hr. exists (expected_result control treatment default_alpha).
  split; [now apply perform_ab_test_returns|].
  unfold expected_result. cbn [effect_size p_value significant].
  rewrite (sample_stat_identical_rates _ _ Hok Hr), chi2_sf_real_0.
  repeat split.
  - f_equal. lra.
  - unfold default_alpha. apply fltb_Fin_false. lra.
Qed.

(** *** Concrete samples *)

Lemma series_sum_app (s1 s2 : series) :
  series_sum (s1 ++ s2) = (series_sum s1 + series_sum s2)%Z.
Proof.
  unfold series_sum. induction s1 as [|x s1 IH]; simpl; [reflexivity|].
  rewrite IH. lia.
Qed.

Lemma series_sum_repeat (x : Z) (n : nat) :
  series_sum (repeat x n) = (Z.of_nat n * x)%Z.
Proof.
  unfold series_sum. induction n as [|n IH]; [reflexivity|].
  cbn [repeat fold_right]. rewrite IH. lia.
Qed.

Lemma sample_of_sum (k n : nat) : series_sum (sample_of k n) = Z.of_nat k.
Proof.
  unfold sample_of. rewrite series_sum_app, !series_sum_repeat. lia.
Qed.

Lemma sample_of_len (k n : nat) :
  (k <= n)%nat -> series_len (sample_of k n) = Z.of_nat n.
Proof.
  intros H. unfold sample_of, series_len.
  rewrite length_app, !repeat_length. lia.
Qed.

Lemma sample_of_testable (k1 n1 k2 n2 : nat) :
  (k1 <= n1)%nat -> (k2 <= n2)%nat -> (0 < n1)%nat -> (0 < n2)%nat ->
  (0 < k1 + k2)%nat -> (k1 + k2 < n1 + n2)%nat ->
  testable (sample_of k1 n1) (sample_of k2 n2).
Proof.
  intros. unfold testable.
  rewrite !sample_of_sum, !sample_of_len by assumption. lia.
Qed.

Lemma sample_of_rate (k n : nat) :
  (k <= n)%nat -> rate (sample_of k n) = INR k / INR n.
Proof.
  intros H. unfold rate. rewrite sample_of_sum, sample_of_len by exact H.
  now rewrite <- !INR_IZR_INZ.
Qed.

(** *** The scenario 870/1000 against 900/1000 *)

Lemma scenario_stat : 4 <= chi2_stat 870 130 900 100.
Proof.
  unfold chi2_stat, expected_real. cbv zeta.
  replace ((870 + 130) * (870 + 900) / (870 + 130 + 900 + 100)) with 885
    by field.
  replace ((870 + 130) * (130 + 100) / (870 + 130 + 900 + 100)) with 115
    by field.
  replace ((900 + 100) * (870 + 900) / (870 + 130 + 900 + 100)) with 885
    by field.
  replace ((900 + 100) * (130 + 100) / (870 + 130 + 900 + 100)) with 115
    by field.
  rewrite (yates_real_up 870 885), (yates_real_down 130 115),
    (yates_real_down 900 885), (yates_real_up 100 115) by lra.
  unfold pearson_real. lra.
Qed.

Lemma scenario_stat_upper : chi2_stat 870 130 900 100 <= 2601 / 625.
Proof.
  unfold chi2_stat, expected_real. cbv zeta.
  replace ((870 + 130) * (870 + 900) / (870 + 130 + 900 + 100)) with 885
    by field.
  replace ((870 + 130) * (130 + 100) / (870 + 130 + 900 + 100)) with 115
    by field.
  replace ((900 + 100) * (870 + 900) / (870 + 130 + 900 + 100)) with 885
    by field.
  replace ((900 + 100) * (130 + 100) / (870 + 130 + 900 + 100)) with 115
    by field.
  rewrite (yates_real_up 870 885), (yates_real_down 130 115),
    (yates_real_down 900 885), (yates_real_up 100 115) by lra.
  unfold pearson_real. lra.
Qed.

Module Binary64Facts.
Import PrimFloat.
#[local] Set Warnings "-inexact-float".

(** Counterexample to C7 as stated: evaluated in binary64, the effect
    size of the scenario is 0.030000000000000027, which is not the
    [float64] value of 0.03 but lies above it. *)
Lemma effect_870_900_not_exact :
  let effect := Binary64.effect_size (sample_of 870 1000) (sample_of 900 1000)
  in
  effect = 0.030000000000000027%float /\
  eqb effect 0.03 = false /\
  ltb 0.03 effect = true.
Proof. vm_compute. repeat split. Qed.

(** Two distinct rates that are very close make the square of the ratio
    overflow: [n] is [inf], and [int(np.ceil(n))] then raises
    [OverflowError].  The quantiles are the values that [norm.ppf] gives
    for 0.975 and 0.8. *)
Lemma close_rates_give_infinity :
  Binary64.calculate_sample_size_n 1.959963984540054 0.8416212335729143
    1e-320 2e-320 = infinity.
Proof. vm_compute. reflexivity. Qed.

End Binary64Facts.

(** C7, amended: 870 successes out of 1000 against 900 out of 1000 give a
    p-value between 0.04 and 0.05, so the flag is set; the effect size,
    computed in binary64, is not 0.03 itself but exceeds it by less than
    [1e-16]. *)
Theorem scenario_870_900_significant :
  (exists r p,
     perform_ab_test (sample_of 870 1000) (sample_of 900 1000) default_alpha
     = Returned r /\
     p_value r = Fin p /\ 4 / 100 < p < 5 / 100 /\
     significant r = true) /\
  (exists q,
     Binary64.to_Q
       (Binary64.effect_size (sample_of 870 1000) (sample_of 900 1000))
     = Some q /\
     (3 # 100 < q)%Q /\ (q < (3 # 100) + (1 # 10 ^ 16))%Q).
Proof.
  split.
  - assert (Hok : testable (sample_of 870 1000) (sample_of 900 1000))
      by (apply sample_of_testable; lia).
    exists (expected_result (sample_of 870 1000) (sample_of 900 1000)
              default_alpha).
    assert (Hs : sample_stat (sample_of 870 1000) (sample_of 900 1000)
                 = chi2_stat 870 130 900 100).
    { unfold sample_stat.
      rewrite !sample_of_sum, !sample_of_len by lia. reflexivity. }
    pose proof scenario_stat as Hlo. pose proof scenario_stat_upper as Hup.
    assert (Hp : 4 / 100
                 < chi2_sf_real
                     (sample_stat (sample_of 870 1000) (sample_of 900 1000))
                 < 5 / 100).
    { rewrite Hs. split.
      - apply chi2_sf_real_head. lra.
      - now apply chi2_sf_real_tail. }
    eexists. split; [now apply perform_ab_test_returns|].
    unfold expected_result. cbn [p_value significant].
    split; [reflexivity|]. split; [exact Hp|].
    unfold default_alpha. apply fltb_Fin, Hp.
  - eexists. split; [vm_compute; reflexivity|]. split; reflexivity.
Qed.

(** *** Samples in which only one outcome occurs *)

Lemma all_success_table_refused :
  chi2_contingency ((1, 0), (1, 0))%Z = Raised (ValueError_expected_zero 0 1).
Proof.
  unfold chi2_contingency. cbn [any_negative Z.ltb Z.compare orb].
  rewrite expected_freq_Fin by lra.
  unfold expected_real. cbv zeta.
  replace ((1 + 0) * (1 + 1) / (1 + 0 + 1 + 0)) with 1 by field.
  replace ((1 + 0) * (0 + 0) / (1 + 0 + 1 + 0)) with 0 by field.
  cbn [tmap first_zero]. rewrite feqb_Fin_false by lra.
  rewrite feqb_Fin_true. reflexivity.
Qed.

(** Counterexample to C8 as stated: two non-empty samples with the same
    success rate 1 make the tester raise instead of returning effect
    size 0. *)
Lemma identical_rates_all_success_raises :
  rate [1%Z] = rate [1%Z] /\
  perform_ab_test [1%Z] [1%Z] default_alpha
  = Raised (ValueError_expected_zero 0 1).
Proof.
  split; [reflexivity|].
  unfold perform_ab_test. cbv zeta.
  change (series_sum [1%Z]) with 1%Z. change (series_len [1%Z]) with 1%Z.
  change (1 - 1)%Z with 0%Z. rewrite all_success_table_refused. reflexivity.
Qed.

(** C8, amended: two samples with identical success rates, in whose pooled
    outcomes both a success and a failure occur, get effect size 0 and
    p-value 1 and are not flagged at the 0.05 level; so do 8 successes out
    of 10 against 8 out of 10. *)
Theorem identical_rates_no_effect :
  (forall control treatment,
     testable control treatment -> rate control = rate treatment ->
     exists r,
       perform_ab_test control treatment default_alpha = Returned r /\
       effect_size r = Fin 0 /\ p_value r = Fin 1 /\ significant r = false)
  /\
  (exists r,
     perform_ab_test (sample_of 8 10) (sample_of 8 10) default_alpha
     = Returned r /\
     effect_size r = Fin 0 /\ significant r = false).
Proof.
  split; [exact identical_rates_result|].
  destruct (identical_rates_result (sample_of 8 10) (sample_of 8 10))
    as (r & Hr & He & _ & Hs).
  - apply sample_of_testable; lia.
  - reflexivity.
  - exists r. auto.
Qed.

(** *** Empty samples *)

Lemma zero_row_table_refused :
  chi2_contingency ((0, 0), (1, 1))%Z = Raised (ValueError_expected_zero 0 0).
Proof.
  unfold chi2_contingency. cbn [any_negative Z.ltb Z.compare orb].
  rewrite expected_freq_Fin by lra.
  unfold expected_real. cbv zeta.
  replace ((0 + 0) * (0 + 1) / (0 + 0 + 1 + 1)) with 0 by field.
  cbn [tmap first_zero]. rewrite feqb_Fin_true. reflexivity.
Qed.

Lemma zero_column_table_refused :
  chi2_contingency ((0, 1), (0, 1))%Z = Raised (ValueError_expected_zero 0 0).
Proof.
  unfold chi2_contingency. cbn [any_negative Z.ltb Z.compare orb].
  rewrite expected_freq_Fin by lra.
  unfold expected_real. cbv zeta.
  replace ((0 + 1) * (0 + 0) / (0 + 1 + 0 + 1)) with 0 by field.
  cbn [tmap first_zero]. rewrite feqb_Fin_true. reflexivity.
Qed.

(** Counterexample to C1 as stated: with both samples empty the tester
    raises nothing and returns [nan] for every number; and with an empty
    control sample the error is the one that two non-empty samples without
    a success get. *)
Lemma empty_samples_counterexample :
  (exists r,
     perform_ab_test [] [] default_alpha = Returned r /\
     control_rate r = NaN /\ effect_size r = NaN /\ p_value r = NaN) /\
  perform_ab_test [] [1%Z; 0%Z] default_alpha
  = Raised (ValueError_expected_zero 0 0) /\
  perform_ab_test [0%Z] [0%Z] default_alpha
  = Raised (ValueError_expected_zero 0 0).
Proof.
  split; [|split].
  - eexists. split; [apply perform_ab_test_both_empty|]. cbn. auto.
  - unfold perform_ab_test. cbv zeta.
    change (series_sum []) with 0%Z. change (series_len []) with 0%Z.
    change (series_sum [1%Z; 0%Z]) with 1%Z.
    change (series_len [1%Z; 0%Z]) with 2%Z.
    change (0 - 0)%Z with 0%Z. change (2 - 1)%Z with 1%Z.
    rewrite zero_row_table_refused. reflexivity.
  - unfold perform_ab_test. cbv zeta.
    change (series_sum [0%Z]) with 0%Z. change (series_len [0%Z]) with 1%Z.
    change (1 - 0)%Z with 1%Z.
    rewrite zero_column_table_refused. reflexivity.
Qed.

Lemma perform_ab_test_negative_inv (control treatment : series)
  (alpha : float64) :
  perform_ab_test control treatment alpha
  = Raised ValueError_observed_negative ->
  ~ ((0 <= series_sum control <= series_len control)%Z /\
     (0 <= series_sum treatment <= series_len treatment)%Z).
Proof.
  unfold perform_ab_test. cbv zeta. intros H [H1 H2].
  unfold chi2_contingency in H.
  rewrite any_negative_false in H by lia.
  destruct (first_zero _) as [[i j]|]; cbn [bind] in H; discriminate.
Qed.

(** C1, amended: when exactly one of the two samples is empty the tester
    returns nothing; what is raised is the error of [chi2_contingency], and
    on boolean samples it is the one for a zero expected frequency. *)
Theorem one_empty_sample_raises (control treatment : series)
  (alpha : float64) :
  (control = [] /\ treatment <> []) \/ (control <> [] /\ treatment = []) ->
  exists e,
    perform_ab_test control treatment alpha = Raised e /\
    chi2_contingency_error e /\
    (boolean control -> boolean treatment ->
     exists i j, e = ValueError_expected_zero i j).
Proof.
  intros Hone.
  destruct (perform_ab_test control treatment alpha) as [r|e] eqn:E.
  - exfalso.
    assert (Hok : testable control treatment).
    { apply (perform_ab_test_inv _ _ alpha r); [|exact E]. tauto. }
    destruct Hok as (_ & _ & Hn1 & Hn2 & _).
    destruct Hone as [[-> _]|[_ ->]]; unfold series_len in *; simpl in *; lia.
  - exists e. split; [reflexivity|].
    pose proof (perform_ab_test_raises_only_chi2 _ _ _ _ E) as He.
    split; [exact He|].
    intros Hb1 Hb2. destruct He as [->|He]; [|exact He].
    exfalso. apply (perform_ab_test_negative_inv _ _ _ E).
    split; now apply boolean_sum_range.
Qed.

(** ** Results about the sample size *)

Lemma norm_ppf_Fin (q : R) :
  0 < q < 1 -> norm_ppf (Fin q) = Fin (norm_quantile q).
Proof.
  intros [H0 H1]. unfold norm_ppf.
  destruct (Rlt_dec q 0); [lra|]. destruct (Rlt_dec 1 q); [lra|].
  destruct (Req_dec_T q 0); [lra|]. destruct (Req_dec_T q 1); [lra|].
  reflexivity.
Qed.

(** When every intermediate value is finite the estimator returns the
    ceiling of the formula. *)
Lemma calculate_sample_size_finite (alpha power p1 p2 : R) :
  0 < 1 - alpha / 2 < 1 -> 0 < power < 1 ->
  0 <= 2 * ((p1 + p2) / 2) * (1 - (p1 + p2) / 2) ->
  0 <= p1 * (1 - p1) + p2 * (1 - p2) ->
  p1 <> p2 ->
  calculate_sample_size (Fin alpha) (Fin power) (Fin p1) (Fin p2) =
  Returned (Rceil (sample_size_real alpha power p1 p2)).
Proof.
  intros Ha Hb Hs1 Hs2 Hne. unfold calculate_sample_size. cbv zeta.
  unfold Rminus in Ha, Hs1, Hs2.
  repeat first
    [ progress cbn [fsub fneg fadd fmul]
    | rewrite fdiv_Fin by lra
    | rewrite norm_ppf_Fin by lra
    | rewrite fsqrt_Fin by lra ].
  rewrite int_of_float_ceil.
  unfold sample_size_real. cbv zeta. do 2 f_equal.
  unfold Rminus. simpl pow. ring.
Qed.






Lemma fmul_NaN_r (z : float64) : fmul z NaN = NaN.
Proof. destruct z; reflexivity. Qed.

Lemma fadd_NaN_r (w : float64) : fadd w NaN = NaN.
Proof. destruct w; reflexivity. Qed.

Lemma fadd_NaN_l (w : float64) : fadd NaN w = NaN.
Proof. reflexivity. Qed.

Lemma fdiv_NaN_l (d : float64) : fdiv NaN d = NaN.
Proof. reflexivity. Qed.

Lemma sample_size_real_numerator (p1 p2 : R) :
  sample_size_real (5 / 100) (8 / 10) p1 p2 =
  2 * (sample_size_numerator p1 p2 / (p2 - p1)) ^ 2.
Proof. reflexivity. Qed.

(** The two quantiles of the default level and power. *)
Lemma default_quantiles_range :
  0 < norm_quantile (1 - 5 / 100 / 2) < 2 /\ 0 < norm_quantile (8 / 10) < 2.
Proof.
  repeat split;
    (apply norm_quantile_pos; lra) || (apply norm_quantile_below_2; lra).
Qed.

Lemma sqrt_le_one (x : R) : x <= 1 -> sqrt x <= 1.
Proof.
  intros Hx. rewrite <- sqrt_1. destruct (Rle_dec 0 x) as [H0|H0].
  - apply sqrt_le_1; lra.
  - rewrite sqrt_neg_0 by lra. rewrite sqrt_1. lra.
Qed.

(** With a non-negative second square-root argument and distinct rates
    the first argument is positive, and the numerator of the formula lies
    strictly between 0 and 4. *)
Lemma sample_size_numerator_range (p1 p2 : R) :
  0 <= p1 * (1 - p1) + p2 * (1 - p2) -> p1 <> p2 ->
  0 < sample_size_numerator p1 p2 < 4.
Proof.
  intros Hr2 Hne. unfold sample_size_numerator.
  destruct default_quantiles_range as [[Ha0 Ha2] [Hb0 Hb2]].
  set (r1 := 2 * ((p1 + p2) / 2) * (1 - (p1 + p2) / 2)).
  set (r2 := p1 * (1 - p1) + p2 * (1 - p2)) in *.
  assert (Hid : (p1 - p2) * (p1 - p2) = 2 * (r1 - r2))
    by (unfold r1, r2; field).
  assert (Hsq : 0 < (p1 - p2) * (p1 - p2)).
  { destruct (Rtotal_order p1 p2) as [H|[H|H]]; [nra|contradiction|nra]. }
  assert (Hr1 : 0 < r1) by lra.
  assert (Hr1' : r1 <= 1).
  { unfold r1. pose proof (Rle_0_sqr ((p1 + p2) / 2 - 1 / 2)) as H.
    unfold Rsqr in H. lra. }
  assert (Hr2' : r2 <= 1) by lra.
  pose proof (sqrt_lt_R0 r1 Hr1) as HA.
  pose proof (sqrt_pos r2) as HB.
  pose proof (sqrt_le_one r1 Hr1') as HA1.
  pose proof (sqrt_le_one r2 Hr2') as HB1.
  split; nra.
Qed.

(** The formula is positive and at most [32 / (p2 - p1)^2]. *)
Lemma sample_size_real_range (p1 p2 : R) :
  0 <= p1 * (1 - p1) + p2 * (1 - p2) -> p1 <> p2 ->
  0 < sample_size_real (5 / 100) (8 / 10) p1 p2 <= 32 / (p2 - p1) ^ 2.
Proof.
  intros Hr2 Hne. rewrite sample_size_real_numerator.
  destruct (sample_size_numerator_range p1 p2 Hr2 Hne) as [HN0 HN4].
  set (N := sample_size_numerator p1 p2) in *.
  assert (Hd : 0 < (p2 - p1) ^ 2).
  { simpl pow. rewrite Rmult_1_r.
    destruct (Rtotal_order p1 p2) as [H|[H|H]]; [nra|contradiction|nra]. }
  replace (2 * (N / (p2 - p1)) ^ 2) with (2 * (N * N) / (p2 - p1) ^ 2)
    by (field; lra).
  unfold Rdiv. pose proof (Rinv_0_lt_compat _ Hd) as Hi.
  split.
  - apply Rmult_lt_0_compat; [nra|exact Hi].
  - apply Rmult_le_compat_r; [lra|nra].
Qed.

Lemma tiny_gap_distinct (p1 p2 : R) :
  / 10 ^ 100 <= Rabs (p2 - p1) -> p1 <> p2.
Proof.
  intros H ->. rewrite Rminus_diag, Rabs_R0 in H.
  assert (0 < / 10 ^ 100) by (apply Rinv_0_lt_compat, pow_lt; lra).
  lra.
Qed.

(** With the default level and power, non-negative square-root arguments
    and rates at least [1e-100] apart, the estimator returns a sample size
    between 1 and [32 / (p2 - p1)^2 + 1]: the value is far inside the
    range of [float64]. *)
Lemma calculate_sample_size_returns (p1 p2 : R) :
  0 <= 2 * ((p1 + p2) / 2) * (1 - (p1 + p2) / 2) ->
  0 <= p1 * (1 - p1) + p2 * (1 - p2) ->
  / 10 ^ 100 <= Rabs (p2 - p1) ->
  exists n,
    calculate_sample_size default_alpha default_power (Fin p1) (Fin p2)
    = Returned n /\
    (1 <= n)%Z /\ IZR n <= 32 / (p2 - p1) ^ 2 + 1.
Proof.
  intros Hr1 Hr2 Hgap. pose proof (tiny_gap_distinct _ _ Hgap) as Hne.
  exists (Rceil (sample_size_real (5 / 100) (8 / 10) p1 p2)).
  destruct (sample_size_real_range p1 p2 Hr2 Hne) as [Hpos Hup].
  pose proof (Rceil_bounds (sample_size_real (5 / 100) (8 / 10) p1 p2)).
  split; [|split].
  - unfold default_alpha, default_power.
    apply calculate_sample_size_finite; lra.
  - pose proof (Rceil_pos _ Hpos). lia.
  - lra.
Qed.


(** *** Monotonicity in the targeted effect *)

Lemma z_alpha_default_pos : 0 < norm_quantile (1 - 5 / 100 / 2).
Proof. apply norm_quantile_pos. lra. Qed.

Lemma z_beta_default_pos : 0 < norm_quantile (8 / 10).
Proof. apply norm_quantile_pos. lra. Qed.

Lemma numerator_pos (p1 p2 : R) :
  1 / 2 <= p1 -> p1 < p2 -> p2 <= 1 -> 0 < sample_size_numerator p1 p2.
Proof.
  intros H1 H2 H3. unfold sample_size_numerator.
  pose proof z_alpha_default_pos as Ha. pose proof z_beta_default_pos as Hb.
  assert (HA : 0 < sqrt (2 * ((p1 + p2) / 2) * (1 - (p1 + p2) / 2)))
    by (apply sqrt_lt_R0; nra).
  assert (HB : 0 <= sqrt (p1 * (1 - p1) + p2 * (1 - p2)))
    by apply sqrt_pos.
  apply Rplus_lt_le_0_compat.
  - now apply Rmult_lt_0_compat.
  - apply Rmult_le_pos; lra.
Qed.

Lemma numerator_decreasing (p1 p2 p2' : R) :
  1 / 2 <= p1 -> p1 < p2 -> p2 <= p2' -> p2' <= 1 ->
  sample_size_numerator p1 p2' <= sample_size_numerator p1 p2.
Proof.
  intros H1 H2 H3 H4. unfold sample_size_numerator.
  pose proof z_alpha_default_pos as Ha. pose proof z_beta_default_pos as Hb.
  apply Rplus_le_compat; apply Rmult_le_compat_l; try lra;
    apply sqrt_le_1_alt; nra.
Qed.

Lemma sample_size_real_pos (p1 p2 : R) :
  1 / 2 <= p1 -> p1 < p2 -> p2 <= 1 ->
  0 < sample_size_real (5 / 100) (8 / 10) p1 p2.
Proof.
  intros H1 H2 H3. rewrite sample_size_real_numerator.
  pose proof (numerator_pos p1 p2 H1 H2 H3) as HN.
  assert (0 < sample_size_numerator p1 p2 / (p2 - p1))
    by (apply Rdiv_lt_0_compat; lra).
  assert (0 < (sample_size_numerator p1 p2 / (p2 - p1)) ^ 2)
    by (apply pow_lt; assumption).
  lra.
Qed.

Lemma sample_size_real_decreasing (p1 p2 p2' : R) :
  1 / 2 <= p1 -> p1 < p2 -> p2 <= p2' -> p2' <= 1 ->
  sample_size_real (5 / 100) (8 / 10) p1 p2'
  <= sample_size_real (5 / 100) (8 / 10) p1 p2.
Proof.
  intros H1 H2 H3 H4. rewrite !sample_size_real_numerator.
  pose proof (numerator_pos p1 p2' H1 ltac:(lra) H4) as HN'.
  pose proof (numerator_decreasing p1 p2 p2' H1 H2 H3 H4) as HN.
  apply Rmult_le_compat_l; [lra|].
  apply pow_incr. split.
  - left. apply Rdiv_lt_0_compat; lra.
  - apply Rle_trans with (sample_size_numerator p1 p2 / (p2' - p1)).
    + apply Rmult_le_compat_r; [|exact HN].
      left. apply Rinv_0_lt_compat. lra.
    + apply Rmult_le_compat_l; [lra|].
      apply Rinv_le_contravar; lra.
Qed.

Lemma default_sample_size (p1 p2 : R) :
  1 / 2 <= p1 -> p1 < p2 -> p2 <= 1 ->
  calculate_sample_size default_alpha default_power (Fin p1) (Fin p2) =
  Returned (Rceil (sample_size_real (5 / 100) (8 / 10) p1 p2)).
Proof.
  intros H1 H2 H3. unfold default_alpha, default_power.
  apply calculate_sample_size_finite; try lra; nra.
Qed.


(** The same holds for every baseline rate of at least one half. *)
Lemma sample_size_monotone (p1 p2 p2' : R) :
  1 / 2 <= p1 -> p1 < p2 -> p2 <= p2' -> p2' <= 1 ->
  exists n n',
    calculate_sample_size default_alpha default_power (Fin p1) (Fin p2)
    = Returned n /\
    calculate_sample_size default_alpha default_power (Fin p1) (Fin p2')
    = Returned n' /\
    (0 < n' <= n)%Z.
Proof.
  intros H1 H2 H3 H4.
  exists (Rceil (sample_size_real (5 / 100) (8 / 10) p1 p2)),
         (Rceil (sample_size_real (5 / 100) (8 / 10) p1 p2')).
  split; [apply default_sample_size; lra|].
  split; [apply default_sample_size; lra|].
  split.
  - apply Rceil_pos, sample_size_real_pos; lra.
  - apply Rceil_le, sample_size_real_decreasing; lra.
Qed.


(** ** Results about the business impact *)

(** C10: with finite inputs, no rate drop means no rejected projects and a
    net impact equal to the additional funding; a rate drop makes the net
    impact twice the (negative) additional funding. *)
Theorem business_impact_double_counts (c t n cost : R) :
  let r := calculate_business_impact (Fin c) (Fin t) (Fin n) (Fin cost) in
  additional_funding r = Fin ((t - c) * n * cost) /\
  (c <= t ->
     projects_rejected r = Fin 0 /\ net_impact r = additional_funding r) /\
  (t < c ->
     net_impact r = fmul (Fin 2) (additional_funding r) /\
     net_impact r = Fin (2 * ((t - c) * n * cost))).
Proof.
  cbv zeta. unfold calculate_business_impact. cbn [additional_funding
    projects_rejected net_impact].
  split; [reflexivity|]. split.
  - intros Hle. apply fltb_Fin_false in Hle. rewrite Hle.
    split; [reflexivity|]. simpl. f_equal. ring.
  - intros Hlt. apply fltb_Fin in Hlt. rewrite Hlt.
    split; simpl; f_equal; ring.
Qed.

(** ** Results about the simulation *)

Lemma genrand_range (g : rng) :
  (0 <= fst (genrand g) < 2 ^ 32)%Z.
Proof. unfold genrand; simpl fst. apply Z.mod_pos_bound. lia. Qed.

Lemma random_sample_range (g : rng) :
  (0 <= fst (random_sample g))%Q /\ (fst (random_sample g) < 1)%Q.
Proof.
  unfold random_sample.
  pose proof (genrand_range g) as H1.
  destruct (genrand g) as [w1 g1]. simpl fst in H1.
  pose proof (genrand_range g1) as H2.
  destruct (genrand g1) as [w2 g2]. simpl fst in H2.
  cbv zeta. simpl fst.
  assert (Ha : (0 <= Z.shiftr w1 5 < 2 ^ 27)%Z).
  { rewrite Z.shiftr_div_pow2 by lia. split.
    - apply Z.div_pos; lia.
    - apply Z.div_lt_upper_bound; lia. }
  assert (Hb : (0 <= Z.shiftr w2 6 < 2 ^ 26)%Z).
  { rewrite Z.shiftr_div_pow2 by lia. split.
    - apply Z.div_pos; lia.
    - apply Z.div_lt_upper_bound; lia. }
  unfold Qle, Qlt; simpl. lia.
Qed.

(** The index that [choice] computes for the two labels of the simulation
    stays inside the list. *)
Lemma choice_demote_index (g : rng) :
  let cdf := cumsum [3 # 10; 7 # 10]%Q in
  (searchsorted_right (map (fun c => (c / last cdf 1)%Q) cdf)
     (fst (random_sample g)) < 2)%nat.
Proof.
  cbv zeta. destruct (random_sample_range g) as [_ Hu].
  set (u := fst (random_sample g)) in *.
  unfold searchsorted_right. cbn [cumsum cumsum_from map last filter].
  assert (E : Qle_bool ((0 + (3 # 10) + (7 # 10)) / (0 + (3 # 10) + (7 # 10))) u
              = false).
  { destruct (Qle_bool _ u) eqn:E; [exfalso|reflexivity].
    apply Qle_bool_iff in E.
    apply (Qlt_irrefl u). eapply Qlt_le_trans; [exact Hu|].
    eapply Qle_trans; [|exact E]. apply Qle_bool_iff. reflexivity. }
  rewrite E.
  destruct (Qle_bool ((0 + (3 # 10)) / (0 + (3 # 10) + (7 # 10))) u);
    simpl; lia.
Qed.

(** The draw of the simulation is one of the two labels it is given. *)
Lemma choice_demote_range (g : rng) :
  let v := fst (choice [0%Z; 1%Z] [3 # 10; 7 # 10]%Q 0%Z g) in
  v = 0%Z \/ v = 1%Z.
Proof.
  cbv zeta. unfold choice. destruct (random_sample g) as [u g']. simpl fst.
  destruct (searchsorted_right _ u) as [|[|[|k]]]; simpl; auto.
Qed.

Lemma simulate_cases (r : row) (g : rng) :
  let v := fst (simulate_text_length_effect r g) in
  v = project_is_approved r \/ (project_is_approved r = 1%Z /\ v = 0%Z).
Proof.
  unfold simulate_text_length_effect.
  destruct (min_essay_length (test_groups (test_group r)) =? 0)%Z;
    [left; reflexivity|].
  destruct (essay_length r <? _)%Z; simpl andb; [|left; reflexivity].
  destruct (project_is_approved r =? 1)%Z eqn:E; [|left; reflexivity].
  apply Z.eqb_eq in E.
  destruct (choice_demote_range g) as [H|H]; cbv zeta in *.
  - right. auto.
  - left. congruence.
Qed.

Lemma simulation_only_demotes_rows (df : list row) (g : rng) :
  Forall2
    (fun r v =>
       (v <= project_is_approved r)%Z /\
       (project_is_approved r = 0%Z -> v = 0%Z))
    df (fst (apply_rows simulate_text_length_effect df g)).
Proof.
  revert g. induction df as [|r rest IH]; intros g; simpl.
  - constructor.
  - pose proof (simulate_cases r g) as Hc. cbv zeta in Hc.
    destruct (simulate_text_length_effect r g) as [v g1]. simpl fst in Hc.
    specialize (IH g1).
    destruct (apply_rows simulate_text_length_effect rest g1) as [vs g2].
    simpl fst in *. constructor; [|exact IH].
    destruct Hc as [->|[H1 ->]]; split; intros; lia.
Qed.

(** C5: the simulated outcome never exceeds the original label and a
    rejected project stays rejected, row by row: for any rows given to the
    simulation, and so for the rows of the whole experiment, whatever
    groups are drawn. *)
Theorem simulation_only_demotes :
  (forall (df : list row) (g : rng),
     Forall2
       (fun r ab_test_approved =>
          (ab_test_approved <= project_is_approved r)%Z /\
          (project_is_approved r = 0%Z -> ab_test_approved = 0%Z))
       df (fst (apply_rows simulate_text_length_effect df g)))
  /\
  (forall (df : list (Z * Z)) (g : rng),
     let '(rows, ab_test_approved, _) := implement_ab_test df g in
     Forall2
       (fun r v =>
          (v <= project_is_approved r)%Z /\
          (project_is_approved r = 0%Z -> v = 0%Z))
       rows ab_test_approved).
Proof.
  split; [exact simulation_only_demotes_rows|].
  intros df g. unfold implement_ab_test.
  destruct (assign_groups (length df) g) as [groups g1].
  set (rows := map _ (combine df groups)).
  pose proof (simulation_only_demotes_rows rows g1) as H.
  destruct (apply_rows simulate_text_length_effect rows g1) as [vs g2].
  exact H.
Qed.

(** * Further results

    ** The tester: when it returns, and what it returns *)

Lemma boolean_sum_pos_in (s : series) :
  boolean s -> (0 < series_sum s)%Z -> In 1%Z s.
Proof.
  unfold boolean, series_sum. induction 1 as [|x s Hx _ IH]; simpl.
  - lia.
  - destruct Hx as [-> | ->]; [|auto]. intros H. right. apply IH. lia.
Qed.

Lemma boolean_sum_below_in (s : series) :
  boolean s -> (series_sum s < series_len s)%Z -> In 0%Z s.
Proof.
  unfold boolean, series_sum, series_len.
  induction 1 as [|x s Hx _ IH]; cbn [fold_right length In].
  - simpl. lia.
  - destruct Hx as [-> | ->]; [auto|]. intros H. right. apply IH. lia.
Qed.

Lemma testable_boolean_iff (control treatment : series) :
  boolean control -> boolean treatment ->
  (testable control treatment <->
   control <> [] /\ treatment <> [] /\
   In 1%Z (control ++ treatment) /\ In 0%Z (control ++ treatment)).
Proof.
  intros Hb1 Hb2. split.
  - intros (Hk1 & Hk2 & Hn1 & Hn2 & Hpos & Hlt).
    split; [intros ->; unfold series_len in Hn1; simpl in Hn1; lia|].
    split; [intros ->; unfold series_len in Hn2; simpl in Hn2; lia|].
    split; apply in_or_app.
    + destruct (Z_lt_le_dec 0 (series_sum control)) as [H|H].
      * left. now apply boolean_sum_pos_in.
      * right. apply boolean_sum_pos_in; [assumption|lia].
    + destruct (Z_lt_le_dec (series_sum control) (series_len control))
        as [H|H].
      * left. now apply boolean_sum_below_in.
      * right. apply boolean_sum_below_in; [assumption|lia].
  - intros (Hc & Ht & H1 & H0). now apply boolean_testable.
Qed.

(** X1: on boolean samples the tester returns exactly when both samples
    are empty or both are non-empty with a success and a failure among the
    pooled outcomes; in every other case it raises the zero-frequency
    error of [chi2_contingency]. *)
Theorem tester_returns_iff (control treatment : series) (alpha : float64) :
  boolean control -> boolean treatment ->
  ((exists r, perform_ab_test control treatment alpha = Returned r) <->
   (control = [] /\ treatment = []) \/
   (control <> [] /\ treatment <> [] /\
    In 1%Z (control ++ treatment) /\ In 0%Z (control ++ treatment)))
  /\
  ((exists r, perform_ab_test control treatment alpha = Returned r) \/
   (exists i j,
      perform_ab_test control treatment alpha
      = Raised (ValueError_expected_zero i j))).
Proof.
  intros Hb1 Hb2. split.
  - split.
    + intros [r Hr].
      destruct control as [|x c]; [destruct treatment as [|y t]|].
      * left. auto.
      * right. apply testable_boolean_iff; try assumption.
        apply (perform_ab_test_inv _ _ alpha r); [|exact Hr].
        right. discriminate.
      * right. apply testable_boolean_iff; try assumption.
        apply (perform_ab_test_inv _ _ alpha r); [|exact Hr].
        left. discriminate.
    + intros [[-> ->]|H].
      * eexists. apply perform_ab_test_both_empty.
      * apply testable_boolean_iff in H; try assumption.
        eexists. now apply perform_ab_test_returns.
  - destruct (perform_ab_test control treatment alpha) as [r|e] eqn:E.
    + left. now exists r.
    + right.
      destruct (perform_ab_test_raises_only_chi2 _ _ _ _ E) as [->|He].
      * exfalso. apply (perform_ab_test_negative_inv _ _ _ E).
        split; now apply boolean_sum_range.
      * destruct He as (i & j & ->). now exists i, j.
Qed.

Lemma chi2_sf_real_le_1 (x : R) : chi2_sf_real x <= 1.
Proof.
  unfold chi2_sf_real.
  pose proof (norm_cdf_increasing 0 (sqrt x) (conj (Rle_refl 0) (sqrt_pos x))).
  rewrite norm_cdf_0 in H. lra.
Qed.

Lemma standard_error_bound (control treatment : series) :
  testable control treatment ->
  0 <= standard_error control treatment
  <= 1 / 2 * sqrt (1 / IZR (series_len control)
                   + 1 / IZR (series_len treatment)).
Proof.
  intros (Hk1 & Hk2 & Hn1 & Hn2 & _).
  pose proof (rate_range _ Hk1 Hn1) as Hr1.
  pose proof (rate_range _ Hk2 Hn2) as Hr2.
  pose proof (variance_term_nonneg _ Hk1 Hn1) as Hv1.
  pose proof (variance_term_nonneg _ Hk2 Hn2) as Hv2.
  apply IZR_lt in Hn1, Hn2.
  set (n1 := IZR (series_len control)) in *.
  set (n2 := IZR (series_len treatment)) in *.
  assert (Hi1 : 0 < / n1) by now apply Rinv_0_lt_compat.
  assert (Hi2 : 0 < / n2) by now apply Rinv_0_lt_compat.
  unfold standard_error. fold n1 n2. split; [apply sqrt_pos|].
  replace (1 / 2) with (sqrt (1 / 4)).
  2:{ replace (1 / 4) with (1 / 2 * (1 / 2)) by field.
      apply sqrt_square. lra. }
  rewrite <- sqrt_mult_alt by lra.
  apply sqrt_le_1_alt.
  assert (Hq : forall x, x * (1 - x) <= 1 / 4).
  { intros x. pose proof (Rle_0_sqr (x - 1 / 2)) as Hs.
    unfold Rsqr in Hs. lra. }
  pose proof (Rmult_le_compat_r _ _ _ (Rlt_le _ _ Hi1) (Hq (rate control))).
  pose proof (Rmult_le_compat_r _ _ _ (Rlt_le _ _ Hi2) (Hq (rate treatment))).
  unfold Rdiv in *. lra.
Qed.

(** X2: on non-empty samples every number of a returned result is finite;
    the two rates lie in [[0, 1]], the confidence interval is centred on
    the effect size with a half-width of at most
    [0.98 * sqrt (1/n1 + 1/n2)], and the p-value is at most 1. *)
Theorem returned_result_ranges (control treatment : series)
  (alpha : float64) (r : test_result) :
  control <> [] -> treatment <> [] ->
  perform_ab_test control treatment alpha = Returned r ->
  exists p1 p2 half p,
    control_rate r = Fin p1 /\ treatment_rate r = Fin p2 /\
    effect_size r = Fin (p2 - p1) /\
    ci_lower r = Fin (p2 - p1 - half) /\
    ci_upper r = Fin (p2 - p1 + half) /\
    p_value r = Fin p /\
    0 <= p1 <= 1 /\ 0 <= p2 <= 1 /\
    0 <= half <= 98 / 100 * sqrt (1 / IZR (series_len control)
                                  + 1 / IZR (series_len treatment)) /\
    p <= 1.
Proof.
  intros Hc Ht H. destruct (returned_result _ _ _ _ Hc Ht H) as [Hok ->].
  exists (rate control), (rate treatment),
    (196 / 100 * standard_error control treatment),
    (chi2_sf_real (sample_stat control treatment)).
  unfold expected_result.
  cbn [control_rate treatment_rate effect_size ci_lower ci_upper p_value].
  repeat (split; [reflexivity|]).
  pose proof (standard_error_bound _ _ Hok) as Hse.
  destruct Hok as (Hk1 & Hk2 & Hn1 & Hn2 & _).
  split; [now apply rate_range|]. split; [now apply rate_range|].
  split; [lra|apply chi2_sf_real_le_1].
Qed.

Lemma series_sum_permutation (s s' : series) :
  Permutation s s' -> series_sum s = series_sum s'.
Proof.
  unfold series_sum. induction 1; simpl; lia.
Qed.

(** X3: the tester depends on the two samples only through their
    contents, not through the order of the outcomes. *)
Theorem tester_order_irrelevant (control control' treatment treatment'
  : series) (alpha : float64) :
  Permutation control control' -> Permutation treatment treatment' ->
  perform_ab_test control treatment alpha
  = perform_ab_test control' treatment' alpha.
Proof.
  intros Hc Ht. unfold perform_ab_test, series_len.
  rewrite (series_sum_permutation _ _ Hc), (series_sum_permutation _ _ Ht),
    (Permutation_length Hc), (Permutation_length Ht).
  reflexivity.
Qed.

(** ** The sample size: symmetry, valid rates, and the printed table *)

Lemma square_of_quotient_sym (N : float64) (d : R) :
  fmul (fdiv N (Fin (- d))) (fdiv N (Fin (- d)))
  = fmul (fdiv N (Fin d)) (fdiv N (Fin d)).
Proof.
  destruct (Req_dec d 0) as [->|Hd]; [now rewrite Ropp_0|].
  destruct N as [x| | |]; cbn [fdiv].
  - destruct (Req_dec_T d 0) as [Hd0|_]; [contradiction|].
    destruct (Req_dec_T (- d) 0) as [Hd'|_]; [lra|].
    cbn [fmul]. f_equal. field. lra.
  - destruct (Rle_dec 0 d), (Rle_dec 0 (- d)); reflexivity.
  - destruct (Rle_dec 0 d), (Rle_dec 0 (- d)); reflexivity.
  - reflexivity.
Qed.

(** X4: exchanging the baseline and the target rate does not change the
    outcome of the estimator, whatever the level and the power. *)
Theorem sample_size_symmetric (alpha power : float64) (p1 p2 : R) :
  calculate_sample_size alpha power (Fin p2) (Fin p1)
  = calculate_sample_size alpha power (Fin p1) (Fin p2).
Proof.
  unfold calculate_sample_size. cbv zeta. cbn [fsub fneg fadd fmul].
  replace (p2 + p1) with (p1 + p2) by ring.
  replace (p2 * (1 + - p2) + p1 * (1 + - p1))
    with (p1 * (1 + - p1) + p2 * (1 + - p2)) by ring.
  replace (p1 + - p2) with (- (p2 + - p1)) by ring.
  now rewrite square_of_quotient_sym.
Qed.

Lemma calculate_sample_size_nan (alpha power : float64) (p1 p2 : R) :
  2 * ((p1 + p2) / 2) * (1 - (p1 + p2) / 2) < 0
  \/ p1 * (1 - p1) + p2 * (1 - p2) < 0 ->
  calculate_sample_size alpha power (Fin p1) (Fin p2)
  = Raised ValueError_nan_to_int.
Proof.
  intros Hneg. unfold calculate_sample_size. cbv zeta.
  cbn [fsub fneg fadd fmul]. rewrite (fdiv_Fin (p1 + p2) 2) by lra.
  cbn [fsub fneg fadd fmul]. unfold Rminus in Hneg.
  destruct Hneg as [Hneg|Hneg]; rewrite (fsqrt_neg _ Hneg);
    rewrite fmul_NaN_r, ?fadd_NaN_l, ?fadd_NaN_r, fdiv_NaN_l;
    reflexivity.
Qed.

(** X5: with the default level and power the estimator returns for any
    two probabilities that are at least [1e-100] apart, and the sample
    size lies between 1 and [32 / (p2 - p1)^2 + 1]. *)
Theorem sample_size_valid_rates (p1 p2 : R) :
  0 <= p1 <= 1 -> 0 <= p2 <= 1 -> / 10 ^ 100 <= Rabs (p2 - p1) ->
  exists n,
    calculate_sample_size default_alpha default_power (Fin p1) (Fin p2)
    = Returned n /\
    (1 <= n)%Z /\ IZR n <= 32 / (p2 - p1) ^ 2 + 1.
Proof.
  intros H1 H2 Hgap.
  apply calculate_sample_size_returns; [nra|nra|exact Hgap].
Qed.

(** *** The table of [sample_size_analysis] *)

Lemma series_mean_Fin (s : series) :
  s <> [] -> series_mean s = Fin (rate s).
Proof.
  intros Hs. unfold series_mean, rate, of_Z. apply fdiv_Fin.
  apply series_len_pos, IZR_lt in Hs. lra.
Qed.

Lemma series_mean_empty : series_mean [] = NaN.
Proof. unfold series_mean, of_Z. apply fdiv_zero_zero. Qed.

(** X6: when the current approval rate lies between 0.5 and 0.95 the
    analysis returns one requirement per effect size, in the order 1%, 2%,
    3%, 5%; the required sizes are positive and do not grow along the
    table; the selected sizes are 5000 per group and 20000 in total. *)
Theorem sample_size_table_decreasing (labels : series) :
  labels <> [] -> 1 / 2 <= rate labels <= 95 / 100 ->
  exists n1 n2 n3 n5,
    sample_size_analysis labels =
    Returned {| requirements :=
                  [(Fin (1 / 100), n1); (Fin (2 / 100), n2);
                   (Fin (3 / 100), n3); (Fin (5 / 100), n5)];
                target_sample_size := 5000;
                total_test_size := 20000 |} /\
    (0 < n5 <= n3)%Z /\ (n3 <= n2)%Z /\ (n2 <= n1)%Z.
Proof.
  intros Hne Hr. unfold sample_size_analysis.
  rewrite (series_mean_Fin _ Hne). cbv zeta.
  set (r := rate labels) in *.
  destruct (sample_size_monotone r (r + 1 / 100) (r + 2 / 100))
    as (n1 & n2 & E1 & E2 & H12); try lra.
  destruct (sample_size_monotone r (r + 2 / 100) (r + 3 / 100))
    as (n2' & n3 & E2' & E3 & H23); try lra.
  destruct (sample_size_monotone r (r + 3 / 100) (r + 5 / 100))
    as (n3' & n5 & E3' & E5 & H35); try lra.
  assert (n2' = n2) by congruence. assert (n3' = n3) by congruence.
  subst n2' n3'. exists n1, n2, n3, n5.
  unfold effect_sizes. cbn [for_each fadd].
  rewrite E1, E2, E3, E5. cbn [bind]. split; [reflexivity|lia].
Qed.

Lemma for_each_raised {X Y : Type} (f : X -> py Y) (l : list X) (e : exn) :
  (forall x, In x l -> (exists y, f x = Returned y) \/ f x = Raised e) ->
  (exists x, In x l /\ f x = Raised e) ->
  for_each f l = Raised e.
Proof.
  induction l as [|x l IH]; intros Hall (x0 & Hin & Hx0);
    [contradiction|].
  cbn [for_each].
  destruct (Hall x (or_introl eq_refl)) as [[y Hy]|Hx]; [|now rewrite Hx].
  rewrite Hy. cbn [bind]. rewrite IH; [reflexivity| |].
  - intros z Hz. apply Hall. now right.
  - destruct Hin as [<-|Hin]; [congruence|]. now exists x0.
Qed.

Lemma default_sample_size_cases (p1 p2 : R) :
  p1 <> p2 ->
  (exists n,
     calculate_sample_size default_alpha default_power (Fin p1) (Fin p2)
     = Returned n)
  \/ calculate_sample_size default_alpha default_power (Fin p1) (Fin p2)
     = Raised ValueError_nan_to_int.
Proof.
  intros Hne.
  destruct (Rlt_dec (2 * ((p1 + p2) / 2) * (1 - (p1 + p2) / 2)) 0) as [HA|HA];
    [right; apply calculate_sample_size_nan; now left|].
  destruct (Rlt_dec (p1 * (1 - p1) + p2 * (1 - p2)) 0) as [HB|HB];
    [right; apply calculate_sample_size_nan; now right|].
  left. eexists. unfold default_alpha, default_power.
  apply calculate_sample_size_finite; lra.
Qed.

Lemma calculate_sample_size_nan_rate (alpha power p2 : float64) :
  calculate_sample_size alpha power NaN p2 = Raised ValueError_nan_to_int.
Proof.
  unfold calculate_sample_size. cbv zeta.
  change (fadd NaN p2) with NaN. change (fdiv NaN (Fin 2)) with NaN.
  change (fmul (Fin 2) NaN) with NaN.
  change (fmul NaN (fsub (Fin 1) NaN)) with NaN.
  change (fsqrt NaN) with NaN.
  rewrite fmul_NaN_r, fadd_NaN_l, fdiv_NaN_l. reflexivity.
Qed.

(** X7: the analysis fails with the [nan] conversion error, and prints no
    complete table, when there are no labels at all, and when the current
    approval rate exceeds 0.975, as it does when every project is
    approved. *)
Theorem sample_size_table_fails (labels : series) :
  labels = [] \/ 975 / 1000 < rate labels ->
  sample_size_analysis labels = Raised ValueError_nan_to_int.
Proof.
  intros [->|Hr].
  - unfold sample_size_analysis. rewrite series_mean_empty. cbv zeta.
    unfold effect_sizes. cbn [for_each].
    rewrite calculate_sample_size_nan_rate. reflexivity.
  - destruct labels as [|x l] eqn:El.
    { unfold rate, series_sum, series_len in Hr. simpl in Hr.
      unfold Rdiv in Hr. rewrite Rmult_0_l in Hr. lra. }
    rewrite <- El in *. assert (Hne : labels <> []) by (subst; discriminate).
    unfold sample_size_analysis. rewrite (series_mean_Fin _ Hne). cbv zeta.
    set (r := rate labels) in *.
    match goal with
    | |- bind (for_each ?f ?l) _ = _ =>
        assert (E : for_each f l = Raised ValueError_nan_to_int)
    end.
    { apply for_each_raised.
      - intros effect Hin. unfold effect_sizes in Hin. simpl in Hin.
        assert (Hcase : exists e, effect = Fin e /\ 0 < e).
        { destruct Hin as [<-|[<-|[<-|[<-|[]]]]]; eexists; split;
            try reflexivity; lra. }
        destruct Hcase as (e & -> & He). cbn [fadd].
        destruct (default_sample_size_cases r (r + e)) as [[n Hn]|Hn];
          try lra.
        + left. rewrite Hn. cbn [bind]. eauto.
        + right. rewrite Hn. reflexivity.
      - exists (Fin (5 / 100)). split; [unfold effect_sizes; simpl; auto|].
        cbn [fadd]. rewrite calculate_sample_size_nan; [reflexivity|].
        left. nra. }
    rewrite E. reflexivity.
Qed.

(** ** The experiment: records, randomness, groups *)

Lemma assign_groups_length (n : nat) (g : rng) :
  length (fst (assign_groups n g)) = n.
Proof.
  revert g. induction n as [|n IH]; intros g; [reflexivity|].
  cbn [assign_groups].
  destruct (choice _ _ _ g) as [x g1]. specialize (IH g1).
  destruct (assign_groups n g1) as [xs g2]. simpl in *. now rewrite IH.
Qed.

Lemma apply_rows_length (f : row -> rng -> Z * rng) (df : list row)
  (g : rng) :
  length (fst (apply_rows f df g)) = length df.
Proof.
  revert g. induction df as [|r rest IH]; intros g; [reflexivity|].
  cbn [apply_rows]. destruct (f r g) as [v g1]. specialize (IH g1).
  destruct (apply_rows f rest g1) as [vs g2]. simpl in *. now rewrite IH.
Qed.

Lemma rows_of_records (df : list (Z * Z)) (groups : list group) :
  length groups = length df ->
  map (fun r => (project_is_approved r, essay_length r))
    (map (fun '((label, len), grp) =>
            {| project_is_approved := label;
               essay_length := len;
               test_group := grp |})
         (combine df groups)) = df.
Proof.
  revert groups. induction df as [|[label len] df IH]; intros groups Hlen.
  - reflexivity.
  - destruct groups as [|grp groups]; [discriminate|].
    simpl. f_equal. apply IH. simpl in Hlen. lia.
Qed.

Lemma group_partition (df : frame) :
  (length (in_group A df) + length (in_group B df)
   + length (in_group C df) + length (in_group D df))%nat = length df.
Proof.
  unfold in_group. induction df as [|[r v] df IH]; [reflexivity|].
  cbn [filter fst length]. destruct (test_group r); cbn [group_eqb length]; lia.
Qed.

Lemma implement_ab_test_records (df : list (Z * Z)) (g : rng) :
  let '(rows, ab_test_approved, _) := implement_ab_test df g in
  map (fun r => (project_is_approved r, essay_length r)) rows = df /\
  length ab_test_approved = length rows /\
  map fst (combine rows ab_test_approved) = rows.
Proof.
  unfold implement_ab_test.
  pose proof (assign_groups_length (length df) g) as Hg.
  destruct (assign_groups (length df) g) as [groups g1]. simpl fst in Hg.
  set (rows := map _ (combine df groups)).
  pose proof (apply_rows_length simulate_text_length_effect rows g1) as Ho.
  destruct (apply_rows simulate_text_length_effect rows g1) as [outs g2].
  simpl fst in Ho.
  split; [now apply rows_of_records|].
  split; [exact Ho|].
  clear -Ho. revert outs Ho.
  induction rows as [|r rows IH]; intros [|v outs] Ho; try discriminate;
    [reflexivity|]. simpl. f_equal. apply IH. simpl in Ho. lia.
Qed.

Lemma quarters_cdf :
  let cdf := cumsum [1 # 4; 1 # 4; 1 # 4; 1 # 4]%Q in
  map (fun c => (c / last cdf 1%Q)%Q) cdf
  = [256 # 1024; 2048 # 4096; 12288 # 16384; 65536 # 65536]%Q.
Proof. reflexivity. Qed.

(** The uniform sample lies in the quarter of [[0, 1)] selected by the two
    leading bits of the first word drawn. *)
Lemma searchsorted_quarters (w1 w2 : Z) :
  (0 <= w1 < 2 ^ 32)%Z -> (0 <= w2 < 2 ^ 32)%Z ->
  searchsorted_right
    [256 # 1024; 2048 # 4096; 12288 # 16384; 65536 # 65536]%Q
    (Qmake (Z.shiftr w1 5 * 67108864 + Z.shiftr w2 6) 9007199254740992)
  = Z.to_nat (Z.shiftr w1 30).
Proof.
  intros H1 H2. rewrite !Z.shiftr_div_pow2 by lia.
  change (2 ^ 5)%Z with 32%Z. change (2 ^ 6)%Z with 64%Z.
  change (2 ^ 30)%Z with 1073741824%Z.
  change (2 ^ 32)%Z with 4294967296%Z in *.
  unfold searchsorted_right, Qle_bool. cbn [filter Qnum Qden].
  assert (Hk : (w1 / 1073741824 = 0 \/ w1 / 1073741824 = 1
                \/ w1 / 1073741824 = 2 \/ w1 / 1073741824 = 3)%Z).
  { Z.to_euclidean_division_equations. lia. }
  destruct Hk as [Hk|[Hk|[Hk|Hk]]]; rewrite Hk;
    repeat match goal with
    | |- context [(?a <=? ?b)%Z] =>
        destruct (Z.leb_spec a b);
          [try (exfalso; Z.to_euclidean_division_equations; lia)
          |try (exfalso; Z.to_euclidean_division_equations; lia)]
    end; reflexivity.
Qed.

Lemma choice_group (g : rng) :
  fst (choice [A; B; C; D] [1 # 4; 1 # 4; 1 # 4; 1 # 4]%Q A g)
  = nth (Z.to_nat (Z.shiftr (g 0%nat mod 2 ^ 32) 30)) [A; B; C; D] A.
Proof.
  unfold choice. cbv zeta. rewrite quarters_cdf.
  unfold random_sample, genrand. cbn [fst].
  rewrite searchsorted_quarters; [reflexivity| |];
    apply Z.mod_pos_bound; lia.
Qed.

Lemma assign_groups_nth (k : nat) (g : rng) (i : nat) :
  (i < k)%nat ->
  nth i (fst (assign_groups k g)) A
  = nth (Z.to_nat (Z.shiftr (g (2 * i)%nat mod 2 ^ 32) 30)) [A; B; C; D] A.
Proof.
  revert g i. induction k as [|k IH]; intros g i Hi; [lia|].
  cbn [assign_groups].
  pose proof (choice_group g) as Hc.
  assert (Hs : forall m,
             snd (choice [A; B; C; D] [1 # 4; 1 # 4; 1 # 4; 1 # 4]%Q A g) m
             = g (2 + m)%nat) by reflexivity.
  destruct (choice _ _ _ g) as [x g1]. simpl fst in Hc. simpl snd in Hs.
  specialize (IH g1). destruct (assign_groups k g1) as [xs g2].
  simpl fst in *. destruct i as [|i].
  - exact Hc.
  - cbn [nth]. rewrite IH by lia. rewrite Hs.
    replace (2 + 2 * i)%nat with (2 * S i)%nat by lia. reflexivity.
Qed.

Lemma rows_groups (df : list (Z * Z)) (groups : list group) :
  length groups = length df ->
  map test_group
    (map (fun '((label, len), grp) =>
            {| project_is_approved := label;
               essay_length := len;
               test_group := grp |})
         (combine df groups)) = groups.
Proof.
  revert groups. induction df as [|[label len] df IH]; intros groups Hlen.
  - destruct groups; [reflexivity|discriminate].
  - destruct groups as [|grp groups]; [discriminate|].
    simpl. f_equal. apply IH. simpl in Hlen. lia.
Qed.

(** X8: the group of a record is decided by the two leading bits of the
    first of the two 32-bit words that the generator yields for it: the
    record at position [i] gets a row, whose group is A, B, C or D
    according as the word at position [2 i] of the stream starts with 00,
    01, 10 or 11. *)
Theorem group_from_leading_bits (df : list (Z * Z)) (g : rng) :
  let '(rows, _, _) := implement_ab_test df g in
  forall i,
    (i < length df)%nat ->
    exists r,
      nth_error rows i = Some r /\
      test_group r
      = nth (Z.to_nat (Z.shiftr (g (2 * i)%nat mod 2 ^ 32) 30))
          [A; B; C; D] A.
Proof.
  unfold implement_ab_test.
  pose proof (assign_groups_length (length df) g) as Hlen.
  pose proof (assign_groups_nth (length df) g) as Hnth.
  destruct (assign_groups (length df) g) as [groups g1]. simpl fst in *.
  pose proof (rows_groups df groups Hlen) as Hgr.
  set (rows := map _ (combine df groups)) in *.
  destruct (apply_rows simulate_text_length_effect rows g1) as [outs g2].
  assert (Hrows : length rows = length df).
  { rewrite <- Hlen, <- Hgr at 1. now rewrite length_map. }
  intros i Hi.
  destruct (nth_error rows i) as [r|] eqn:Hr.
  - exists r. split; [reflexivity|].
    rewrite <- (Hnth i Hi), <- Hgr.
    apply (map_nth_error test_group) in Hr.
    symmetry. now apply nth_error_nth.
  - apply nth_error_None in Hr. lia.
Qed.

Lemma simulate_unaffected (r : row) (g : rng) :
  draws_on r = false ->
  simulate_text_length_effect r g = (project_is_approved r, g).
Proof.
  unfold draws_on, simulate_text_length_effect. cbv zeta.
  destruct (min_essay_length (test_groups (test_group r)) =? 0)%Z;
    [reflexivity|].
  cbn [negb andb]. intros ->. reflexivity.
Qed.

Lemma simulate_affected (r : row) (g : rng) :
  draws_on r = true ->
  forall n, snd (simulate_text_length_effect r g) n = g (2 + n)%nat.
Proof.
  unfold draws_on, simulate_text_length_effect. cbv zeta.
  destruct (min_essay_length (test_groups (test_group r)) =? 0)%Z;
    [discriminate|].
  cbn [negb andb]. intros -> n. unfold choice, random_sample, genrand.
  reflexivity.
Qed.

Lemma assign_groups_consumes (k : nat) (g : rng) :
  forall n, snd (assign_groups k g) n = g (2 * k + n)%nat.
Proof.
  revert g. induction k as [|k IH]; intros g n; [reflexivity|].
  cbn [assign_groups].
  assert (Hc : forall m,
             snd (choice [A; B; C; D] [1 # 4; 1 # 4; 1 # 4; 1 # 4]%Q A g) m
             = g (2 + m)%nat) by reflexivity.
  destruct (choice _ _ _ g) as [x g1]. simpl snd in Hc.
  specialize (IH g1 n). destruct (assign_groups k g1) as [xs g2].
  simpl snd in *. rewrite IH, Hc. f_equal. lia.
Qed.

Lemma apply_rows_consumes (df : list row) (g : rng) :
  Forall2 (fun r v => draws_on r = false -> v = project_is_approved r)
    df (fst (apply_rows simulate_text_length_effect df g)) /\
  forall n,
    snd (apply_rows simulate_text_length_effect df g) n
    = g (2 * length (filter draws_on df) + n)%nat.
Proof.
  revert g. induction df as [|r rest IH]; intros g.
  - split; [constructor|reflexivity].
  - cbn [apply_rows filter].
    pose proof (simulate_unaffected r g) as Hu.
    pose proof (simulate_affected r g) as Ha.
    destruct (simulate_text_length_effect r g) as [v g1].
    destruct (IH g1) as [IH1 IH2].
    destruct (apply_rows simulate_text_length_effect rest g1) as [vs g2].
    simpl fst in *. simpl snd in *. split.
    + constructor; [|exact IH1]. intros Hd. specialize (Hu Hd). congruence.
    + intros n. rewrite IH2. destruct (draws_on r) eqn:Hd.
      * rewrite (Ha eq_refl). cbn [length]. f_equal. lia.
      * specialize (Hu eq_refl). injection Hu as _ ->. reflexivity.
Qed.

(** X9: the simulation changes nothing and draws nothing on a row of the
    control group, on a rejected project and on an essay of sufficient
    length: the outcome of such a row is its label, and the generator
    advances by two words per record for the groups plus two words per
    row drawn on. *)
Theorem experiment_randomness (df : list (Z * Z)) (g : rng) :
  let '(rows, ab_test_approved, g') := implement_ab_test df g in
  Forall2 (fun r v => draws_on r = false -> v = project_is_approved r)
    rows ab_test_approved /\
  forall n,
    g' n = g (2 * (length df + length (filter draws_on rows)) + n)%nat.
Proof.
  unfold implement_ab_test.
  pose proof (assign_groups_consumes (length df) g) as Hg.
  destruct (assign_groups (length df) g) as [groups g1]. simpl snd in Hg.
  set (rows := map _ (combine df groups)).
  destruct (apply_rows_consumes rows g1) as [H1 H2].
  destruct (apply_rows simulate_text_length_effect rows g1) as [outs g2].
  simpl fst in *. simpl snd in *. split; [exact H1|].
  intros n. rewrite H2, Hg. f_equal. lia.
Qed.

(** *** Group by group *)

Lemma apply_rows_Forall2 (P : row -> Z -> Prop) (df : list row) (g : rng) :
  (forall r g0, P r (fst (simulate_text_length_effect r g0))) ->
  Forall2 P df (fst (apply_rows simulate_text_length_effect df g)).
Proof.
  intros HP. revert g. induction df as [|r rest IH]; intros g.
  - constructor.
  - cbn [apply_rows]. pose proof (HP r g) as Hr.
    destruct (simulate_text_length_effect r g) as [v g1]. specialize (IH g1).
    destruct (apply_rows simulate_text_length_effect rest g1) as [vs g2].
    simpl fst in *. now constructor.
Qed.

Lemma Forall2_combine {X Y : Type} (P : X -> Y -> Prop) (l1 : list X)
  (l2 : list Y) :
  Forall2 P l1 l2 -> Forall (fun xy => P (fst xy) (snd xy)) (combine l1 l2).
Proof. induction 1; simpl; constructor; assumption. Qed.

Lemma frame_of_simulated (df : list (Z * Z)) (g : rng) :
  Forall (fun rv => simulated (fst rv) (snd rv)) (frame_of df g) /\
  map (fun rv => project_is_approved (fst rv)) (frame_of df g) = map fst df.
Proof.
  pose proof (implement_ab_test_records df g) as Hk.
  unfold frame_of, implement_ab_test in *.
  destruct (assign_groups (length df) g) as [groups g1].
  set (rows := map _ (combine df groups)) in *.
  assert (H : Forall2 simulated rows
                (fst (apply_rows simulate_text_length_effect rows g1))).
  { apply apply_rows_Forall2. intros r g0. split.
    - apply simulate_cases.
    - intros Hd. now rewrite simulate_unaffected. }
  destruct (apply_rows simulate_text_length_effect rows g1) as [outs g2].
  simpl fst in *. destruct Hk as (Hrec & Hlen & Hfst).
  split; [now apply Forall2_combine|].
  rewrite <- (map_map fst project_is_approved), Hfst.
  transitivity
    (map fst (map (fun r => (project_is_approved r, essay_length r)) rows)).
  - now rewrite map_map.
  - now rewrite Hrec.
Qed.

Lemma in_group_Forall (P : row * Z -> Prop) (grp : group) (df : frame) :
  Forall P df ->
  Forall (fun rv => P rv /\ test_group (fst rv) = grp) (in_group grp df).
Proof.
  unfold in_group. induction 1 as [|[r v] df Hx _ IH]; [constructor|].
  cbn [filter fst]. destruct (group_eqb (test_group r) grp) eqn:E;
    [|exact IH].
  constructor; [|exact IH]. split; [exact Hx|].
  cbn [fst]. destruct (test_group r), grp; try discriminate; reflexivity.
Qed.

Lemma control_never_drawn (r : row) : test_group r = A -> draws_on r = false.
Proof. unfold draws_on. intros ->. reflexivity. Qed.

(** X10: after the experiment the outcomes of the control group are its
    labels; in every group the number of simulated approvals is at most
    the number of approved projects; and boolean labels give boolean
    outcomes. *)
Theorem group_outcomes_bounded (df : list (Z * Z)) (g : rng) :
  let fr := frame_of df g in
  group_outcomes fr A = group_labels fr A /\
  (forall grp,
     (series_sum (group_outcomes fr grp)
      <= series_sum (group_labels fr grp))%Z /\
     series_len (group_outcomes fr grp) = series_len (group_labels fr grp)) /\
  (boolean (map fst df) -> forall grp, boolean (group_outcomes fr grp)).
Proof.
  cbv zeta. destruct (frame_of_simulated df g) as [Hsim Hlab].
  set (fr := frame_of df g) in *. split; [|split].
  - unfold group_outcomes, group_labels.
    pose proof (in_group_Forall _ A fr Hsim) as H.
    induction H as [|[r v] l [[_ Hu] Hg] _ IH]; [reflexivity|].
    simpl in *. f_equal; [|exact IH].
    apply Hu. now apply control_never_drawn.
  - intros grp. unfold group_outcomes, group_labels, series_len.
    rewrite !length_map. split; [|reflexivity].
    pose proof (in_group_Forall _ grp fr Hsim) as H.
    unfold series_sum.
    induction H as [|[r v] l [[Hc _] _] _ IH]; [simpl; lia|].
    simpl in *. destruct Hc as [->|[-> ->]]; lia.
  - intros Hb grp. unfold boolean in *.
    assert (Hbl : Forall (fun rv => project_is_approved (fst rv) = 0%Z
                                    \/ project_is_approved (fst rv) = 1%Z) fr).
    { rewrite <- Hlab in Hb. now rewrite Forall_map in Hb. }
    unfold group_outcomes. rewrite Forall_map.
    assert (Hall : Forall (fun rv => snd rv = 0%Z \/ snd rv = 1%Z) fr).
    { clear -Hsim Hbl. induction Hsim as [|[r v] l [Hc _] _ IH];
        [constructor|].
      inversion Hbl as [|? ? Hx Hl]; subst. constructor; [|now apply IH].
      simpl in *. destruct Hc as [->|[_ ->]]; auto. }
    unfold in_group. clear -Hall.
    induction Hall as [|rv l Hx _ IH]; [constructor|].
    cbn [filter]. destruct (group_eqb _ grp); [constructor|]; assumption.
Qed.

(** *** The affected projects of [analyze_results] *)

Lemma filter_length_mono {X : Type} (p q : X -> bool) (l : list X) :
  Forall (fun x => p x = true -> q x = true) l ->
  (length (filter p l) <= length (filter q l))%nat.
Proof.
  induction 1 as [|x l Hx _ IH]; [simpl; lia|].
  cbn [filter]. destruct (p x) eqn:Ep.
  - rewrite (Hx eq_refl). simpl. lia.
  - destruct (q x); simpl; lia.
Qed.

Lemma demoted_short (df : list (Z * Z)) (g : rng) (grp : group) :
  let fr := frame_of df g in
  (Z.of_nat (length (demoted grp fr))
   <= count_short (min_essay_length (test_groups grp)) (in_group grp fr)
   <= Z.of_nat (length (in_group grp fr)))%Z.
Proof.
  cbv zeta. destruct (frame_of_simulated df g) as [Hsim _].
  set (fr := frame_of df g) in *.
  unfold demoted, count_short. split.
  - apply Nat2Z.inj_le, filter_length_mono.
    pose proof (in_group_Forall _ grp fr Hsim) as H.
    eapply Forall_impl; [|exact H].
    intros [r v] [[_ Hu] Hg]. cbn [fst snd] in *. intros Hd.
    destruct (draws_on r) eqn:E.
    + unfold draws_on in E. rewrite Hg in E. cbv zeta in E.
      apply andb_prop in E. destruct E as [E _].
      apply andb_prop in E. destruct E as [_ E]. exact E.
    + rewrite (Hu eq_refl), Z.eqb_refl in Hd. discriminate.
  - apply Nat2Z.inj_le, filter_length_le.
Qed.

(** X11: the dictionary of affected projects has one entry for each of
    the groups B, C and D and none for the control group; each count is at
    least the number of rows of its group that the simulation demoted and
    at most the size of the group; and no row of the control group is
    demoted. *)
Theorem affected_projects_bounds (df : list (Z * Z)) (g : rng) :
  let fr := frame_of df g in
  exists cB cC cD,
    affected_projects fr = [(B, cB); (C, cC); (D, cD)] /\
    (Z.of_nat (length (demoted B fr)) <= cB
     <= Z.of_nat (length (in_group B fr)))%Z /\
    (Z.of_nat (length (demoted C fr)) <= cC
     <= Z.of_nat (length (in_group C fr)))%Z /\
    (Z.of_nat (length (demoted D fr)) <= cD
     <= Z.of_nat (length (in_group D fr)))%Z /\
    demoted A fr = [].
Proof.
  cbv zeta.
  exists (count_short 800 (in_group B (frame_of df g))),
         (count_short 1000 (in_group C (frame_of df g))),
         (count_short 1200 (in_group D (frame_of df g))).
  split; [reflexivity|].
  split; [apply (demoted_short df g B)|].
  split; [apply (demoted_short df g C)|].
  split; [apply (demoted_short df g D)|].
  destruct (frame_of_simulated df g) as [Hsim _].
  pose proof (in_group_Forall _ A _ Hsim) as H.
  unfold demoted. induction H as [|[r v] l [[_ Hu] Hg] _ IH]; [reflexivity|].
  cbn [filter fst snd] in *.
  rewrite (Hu (control_never_drawn r Hg)), Z.eqb_refl. exact IH.
Qed.

(** *** The length bins of [analyze_results] *)

Lemma cut_from_sound (i : nat) (bins : list Z) (x : Z) (k : nat) :
  cut_from i bins x = Some k ->
  (i <= k)%nat /\ (S (k - i) < length bins)%nat /\
  (nth (k - i) bins 0 < x <= nth (S (k - i)) bins 0)%Z.
Proof.
  revert i. induction bins as [|lo rest IH]; intros i; [discriminate|].
  destruct rest as [|hi rest']; [discriminate|].
  cbn [cut_from].
  destruct ((lo <? x)%Z && (x <=? hi)%Z)%bool eqn:E.
  - intros [= <-]. rewrite Nat.sub_diag.
    apply andb_prop in E. destruct E as [E1 E2].
    apply Z.ltb_lt in E1. apply Z.leb_le in E2. simpl. lia.
  - intros H. apply IH in H. destruct H as (Hle & Hlen & Hb).
    replace (k - i)%nat with (S (k - S i)) by lia.
    split; [lia|]. split; [simpl in *; lia|exact Hb].
Qed.

(** X12: an essay gets a length bin exactly when its length is above 0
    and at most 3000; the bin is then the one of the seven right-closed
    intervals that holds the length.  Essays of more than 3000 characters,
    and empty ones, are in no bin. *)
Theorem essay_length_bin_spec (r : row) :
  let x := essay_length r in
  (essay_length_bin r = None <-> (x <= 0 \/ 3000 < x)%Z) /\
  (forall i,
     essay_length_bin r = Some i ->
     (i < 7)%nat /\
     (nth i essay_length_bins 0 < x <= nth (S i) essay_length_bins 0)%Z).
Proof.
  cbv zeta. split.
  - unfold essay_length_bin, cut, essay_length_bins. cbn [cut_from].
    repeat match goal with
           | |- context [(?a <? ?b)%Z] => destruct (Z.ltb_spec a b)
           | |- context [(?a <=? ?b)%Z] => destruct (Z.leb_spec a b)
           end; cbn [andb]; split; intros Hx; try discriminate;
      try reflexivity; lia.
  - intros i H. unfold essay_length_bin, cut in H.
    apply cut_from_sound in H. rewrite Nat.sub_0_r in H.
    destruct H as (_ & Hlen & Hb). split; [simpl in Hlen; lia|exact Hb].
Qed.

(** ** The three tests *)

Lemma for_each_returned {X Y : Type} (f : X -> py Y) (l : list X)
  (ys : list Y) :
  for_each f l = Returned ys <-> Forall2 (fun x y => f x = Returned y) l ys.
Proof.
  revert ys. induction l as [|x l IH]; intros ys.
  - cbn [for_each]. split.
    + intros [= <-]. constructor.
    + intros H. inversion H. reflexivity.
  - cbn [for_each]. split.
    + destruct (f x) as [y|e] eqn:Ex; cbn [bind]; [|discriminate].
      destruct (for_each f l) as [ys'|e] eqn:El; cbn [bind]; [|discriminate].
      intros [= <-]. constructor; [exact Ex|]. now apply IH.
    + intros H. inversion H as [|? y ? ys' Hx Hl]; subst.
      rewrite Hx. cbn [bind]. apply IH in Hl. rewrite Hl. reflexivity.
Qed.

Lemma statistical_tests_inv (df : frame) (rs : list Summary.t) :
  group_outcomes df A <> [] ->
  statistical_tests df = Returned rs ->
  (forall grp, In grp [B; C; D] ->
     testable (group_outcomes df A) (group_outcomes df grp)) /\
  rs = map (summary_of df) [B; C; D].
Proof.
  intros Hne H. unfold statistical_tests in H. cbv zeta in H.
  apply for_each_returned in H.
  assert (Hstep : forall grp s,
             (result <-
                perform_ab_test (group_outcomes df A)
                  (group_outcomes df grp) default_alpha ;;
              Returned (summarize grp result)) = Returned s ->
             testable (group_outcomes df A) (group_outcomes df grp) /\
             s = summary_of df grp).
  { intros grp s Hs.
    destruct (perform_ab_test _ _ _) as [r|e] eqn:E; cbn [bind] in Hs;
      [|discriminate].
    assert (Hok : testable (group_outcomes df A) (group_outcomes df grp))
      by (apply (perform_ab_test_inv _ _ default_alpha r); auto).
    split; [exact Hok|].
    rewrite (perform_ab_test_returns _ _ default_alpha Hok) in E.
    unfold summary_of. congruence. }
  inversion H as [|? sB ? l1 HB H1]; subst.
  inversion H1 as [|? sC ? l2 HC H2]; subst.
  inversion H2 as [|? sD ? l3 HD H3]; subst.
  inversion H3; subst.
  apply Hstep in HB, HC, HD.
  destruct HB as [HB ->], HC as [HC ->], HD as [HD ->].
  split; [|reflexivity].
  intros grp [<-|[<-|[<-|[]]]]; assumption.
Qed.

Lemma statistical_tests_testable (df : frame) :
  (forall grp, In grp [B; C; D] ->
     testable (group_outcomes df A) (group_outcomes df grp)) ->
  statistical_tests df = Returned (map (summary_of df) [B; C; D]).
Proof.
  intros Hall. unfold statistical_tests. cbv zeta. cbn [for_each map].
  rewrite !perform_ab_test_returns by (apply Hall; simpl; auto).
  reflexivity.
Qed.

(** X13: with a non-empty control group, the three tests return exactly
    when the control group is testable against each of the groups B, C
    and D; the summary then has one entry per treatment group, in this
    order, whose effect size is the rate of the group minus the rate of
    the control group. *)
Theorem statistical_tests_returns_iff (df : frame) :
  group_outcomes df A <> [] ->
  ((exists rs, statistical_tests df = Returned rs) <->
   (forall grp, In grp [B; C; D] ->
      testable (group_outcomes df A) (group_outcomes df grp))) /\
  (forall rs,
     statistical_tests df = Returned rs ->
     rs = map (summary_of df) [B; C; D] /\
     Forall
       (fun s =>
          Summary.treatment_rate s
          = Fin (rate (group_outcomes df (Summary.group s))) /\
          Summary.effect_size s
          = Fin (rate (group_outcomes df (Summary.group s))
                 - rate (group_outcomes df A)))
       rs).
Proof.
  intros Hne. split; [split|].
  - intros [rs H]. now apply statistical_tests_inv in H.
  - intros Hall. eexists. now apply statistical_tests_testable.
  - intros rs H. apply statistical_tests_inv in H; [|exact Hne].
    destruct H as [_ ->]. split; [reflexivity|]. repeat constructor.
Qed.

Lemma uniform_samples_raise (control treatment : series) (v : Z)
  (alpha : float64) :
  v = 0%Z \/ v = 1%Z ->
  Forall (fun x => x = v) control -> Forall (fun x => x = v) treatment ->
  control <> [] \/ treatment <> [] ->
  exists i j,
    perform_ab_test control treatment alpha
    = Raised (ValueError_expected_zero i j).
Proof.
  intros Hv Hc Ht Hne.
  assert (Hb : forall s, Forall (fun x => x = v) s -> boolean s).
  { intros s Hs. unfold boolean. eapply Forall_impl; [|exact Hs].
    intros x ->. destruct Hv; auto. }
  destruct (perform_ab_test control treatment alpha) as [r|e] eqn:E.
  - exfalso.
    assert (Hok : testable control treatment)
      by (apply (perform_ab_test_inv _ _ alpha r); auto).
    apply testable_boolean_iff in Hok; auto.
    destruct Hok as (_ & _ & H1 & H0).
    assert (Hall : Forall (fun x => x = v) (control ++ treatment))
      by (apply Forall_app; auto).
    rewrite Forall_forall in Hall.
    apply Hall in H1, H0. congruence.
  - destruct (perform_ab_test_raises_only_chi2 _ _ _ _ E) as [->|He].
    + exfalso. apply (perform_ab_test_negative_inv _ _ _ E).
      split; apply boolean_sum_range; auto.
    + destruct He as (i & j & ->). now exists i, j.
Qed.

Lemma group_outcomes_uniform (df : frame) (v : Z) (grp : group) :
  Forall (fun rv => snd rv = v) df ->
  Forall (fun x => x = v) (group_outcomes df grp).
Proof.
  unfold group_outcomes, in_group. induction 1 as [|rv l Hx _ IH];
    [constructor|].
  cbn [filter]. destruct (group_eqb _ grp); [|exact IH].
  cbn [map]. now constructor.
Qed.

Lemma some_group_nonempty (df : frame) :
  df <> [] ->
  group_outcomes df A <> [] \/ group_outcomes df B <> []
  \/ group_outcomes df C <> [] \/ group_outcomes df D <> [].
Proof.
  intros Hne. pose proof (group_partition df) as Hp.
  assert (0 < length df)%nat by (destruct df; [congruence|simpl; lia]).
  unfold group_outcomes.
  destruct (in_group A df); [|left; discriminate].
  destruct (in_group B df); [|right; left; discriminate].
  destruct (in_group C df); [|right; right; left; discriminate].
  destruct (in_group D df); [|right; right; right; discriminate].
  simpl in Hp. lia.
Qed.

(** X14: on a non-empty data frame whose simulated outcomes are all equal
    (all approved, or all rejected) the three tests raise the
    zero-frequency error of [chi2_contingency]. *)
Theorem statistical_tests_uniform_outcomes (df : frame) (v : Z) :
  df <> [] -> v = 0%Z \/ v = 1%Z ->
  Forall (fun rv => snd rv = v) df ->
  exists i j, statistical_tests df = Raised (ValueError_expected_zero i j).
Proof.
  intros Hne Hv Hall.
  pose proof (fun grp => group_outcomes_uniform df v grp Hall) as Hu.
  pose proof (fun t H =>
                uniform_samples_raise (group_outcomes df A) t v
                  default_alpha Hv (Hu A) H) as Hr.
  unfold statistical_tests. cbv zeta. cbn [for_each].
  destruct (group_outcomes df A) as [|a ctl] eqn:EA.
  - destruct (group_outcomes df B) as [|b tB] eqn:EB.
    + rewrite perform_ab_test_both_empty. cbn [bind].
      destruct (group_outcomes df C) as [|c tC] eqn:EC.
      * rewrite perform_ab_test_both_empty. cbn [bind].
        destruct (group_outcomes df D) as [|d tD] eqn:ED.
        -- exfalso. destruct (some_group_nonempty df Hne)
             as [H|[H|[H|H]]]; congruence.
        -- destruct (Hr (d :: tD)) as (i & j & E);
             [rewrite <- ED; apply Hu|right; discriminate|].
           rewrite E. cbn [bind]. eauto.
      * destruct (Hr (c :: tC)) as (i & j & E);
          [rewrite <- EC; apply Hu|right; discriminate|].
        rewrite E. cbn [bind]. eauto.
    + destruct (Hr (b :: tB)) as (i & j & E);
        [rewrite <- EB; apply Hu|right; discriminate|].
      rewrite E. cbn [bind]. eauto.
  - destruct (Hr (group_outcomes df B)) as (i & j & E);
      [apply Hu|left; discriminate|].
    rewrite E. cbn [bind]. eauto.
Qed.

(** X15: on an empty data frame nothing is raised: each of the three
    tests returns [nan] for its rate, effect size and p-value with the flag
    unset, and every business figure derived from them is [nan]. *)
Theorem empty_frame_gives_nan :
  (exists rs,
     statistical_tests [] = Returned rs /\
     map Summary.group rs = [B; C; D] /\
     Forall (fun s => Summary.treatment_rate s = NaN /\
                      Summary.effect_size s = NaN /\
                      Summary.p_value s = NaN /\
                      Summary.significant s = false) rs) /\
  (exists imps,
     business_impact_analysis [] = Returned imps /\
     map fst imps = [B; C; D] /\
     Forall (fun gi => additional_approved (snd gi) = NaN /\
                       additional_funding (snd gi) = NaN /\
                       net_impact (snd gi) = NaN) imps).
Proof.
  assert (E : statistical_tests [] =
              Returned
                (map (fun grp =>
                        summarize grp
                          {| control_rate := NaN; treatment_rate := NaN;
                             effect_size := NaN; p_value := NaN;
                             significant := false;
                             ci_lower := NaN; ci_upper := NaN |})
                     [B; C; D])).
  { unfold statistical_tests. cbv zeta. cbn [for_each group_outcomes in_group
      filter map].
    rewrite !perform_ab_test_both_empty. reflexivity. }
  split.
  - eexists. split; [exact E|]. split; [reflexivity|].
    repeat constructor.
  - unfold business_impact_analysis. rewrite E. cbn [bind].
    eexists. split; [reflexivity|]. split; [reflexivity|].
    cbn [group_outcomes in_group filter map]. rewrite series_mean_empty.
    repeat constructor.
Qed.

(** ** The business figures of the three tests *)

Lemma business_impact_finite (c t n cost : R) :
  let r := calculate_business_impact (Fin c) (Fin t) (Fin n) (Fin cost) in
  additional_approved r = Fin ((t - c) * n) /\
  additional_funding r = Fin ((t - c) * n * cost) /\
  (c <= t ->
     projects_rejected r = Fin 0 /\
     net_impact r = Fin ((t - c) * n * cost)) /\
  (t < c ->
     projects_rejected r = Fin ((c - t) * n) /\
     net_impact r = Fin (2 * ((t - c) * n * cost))).
Proof.
  cbv zeta. unfold calculate_business_impact.
  cbn [additional_approved additional_funding projects_rejected net_impact].
  split; [reflexivity|]. split; [reflexivity|]. split.
  - intros Hle. apply fltb_Fin_false in Hle. rewrite Hle.
    split; [reflexivity|]. simpl. f_equal. ring.
  - intros Hlt. apply fltb_Fin in Hlt. rewrite Hlt.
    split; simpl; f_equal; ring.
Qed.

(** X16: when the three tests return on a data frame with a non-empty
    control group, the business analysis returns one entry per treatment
    group, in the order B, C, D.  With [e] the effect size of the group,
    the additional approved projects are [100000 e] and the additional
    funding [100000 e] times 298.12; the net impact is the additional
    funding when [e] is not negative and twice the additional funding
    when it is. *)
Theorem business_figures_from_effects (df : frame) (rs : list Summary.t) :
  group_outcomes df A <> [] ->
  statistical_tests df = Returned rs ->
  exists imps,
    business_impact_analysis df = Returned imps /\
    map fst imps = [B; C; D] /\
    Forall
      (fun gi =>
         let e := rate (group_outcomes df (fst gi))
                  - rate (group_outcomes df A) in
         additional_approved (snd gi) = Fin (e * 100000) /\
         additional_funding (snd gi) = Fin (e * 100000 * (29812 / 100)) /\
         (0 <= e ->
            projects_rejected (snd gi) = Fin 0 /\
            net_impact (snd gi) = Fin (e * 100000 * (29812 / 100))) /\
         (e < 0 ->
            net_impact (snd gi) = Fin (2 * (e * 100000 * (29812 / 100)))))
      imps.
Proof.
  intros Hne H.
  assert (Hrs : rs = map (summary_of df) [B; C; D])
    by (now apply statistical_tests_inv in H).
  unfold business_impact_analysis. rewrite H. cbn [bind]. subst rs.
  rewrite (series_mean_Fin _ Hne).
  eexists. split; [reflexivity|]. split; [reflexivity|].
  unfold total_projects_per_year, default_avg_project_cost.
  cbn [map summary_of summarize expected_result Summary.group
       Summary.treatment_rate treatment_rate].
  assert (Hentry : forall c t,
             let imp := calculate_business_impact (Fin c) (Fin t)
                          (Fin 100000) (Fin (29812 / 100)) in
             let e := t - c in
             additional_approved imp = Fin (e * 100000) /\
             additional_funding imp = Fin (e * 100000 * (29812 / 100)) /\
             (0 <= e ->
                projects_rejected imp = Fin 0 /\
                net_impact imp = Fin (e * 100000 * (29812 / 100))) /\
             (e < 0 ->
                net_impact imp = Fin (2 * (e * 100000 * (29812 / 100))))).
  { intros c t. cbv zeta.
    destruct (business_impact_finite c t 100000 (29812 / 100))
      as (H1 & H2 & H3 & H4). cbv zeta in *.
    split; [exact H1|]. split; [exact H2|]. split.
    - intros He. apply H3. lra.
    - intros He. apply H4. lra. }
  constructor; [apply Hentry|].
  constructor; [apply Hentry|].
  constructor; [apply Hentry|]. constructor.
Qed.

(** ** The recommendation *)

Lemma idxmax_spec (l : list Summary.t) :
  l <> [] -> Forall finite_rate l ->
  exists pre b post,
    l = pre ++ b :: post /\ idxmax l = Some b /\
    Forall (fun x => rate_of x < rate_of b) pre /\
    Forall (fun x => rate_of x <= rate_of b) post.
Proof.
  unfold idxmax. induction l as [|x rest IH]; [congruence|].
  intros _ Hfin. inversion Hfin as [|? ? [q Hq] Hrest]; subst.
  destruct rest as [|y rest'].
  - exists [], x, []. cbn [first_best]. rewrite Hq.
    repeat split; constructor.
  - destruct (IH ltac:(discriminate) Hrest)
      as (pre & b & post & El & Eb & Hpre & Hpost).
    assert (Hb : finite_rate b).
    { rewrite Forall_forall in Hrest. apply Hrest. rewrite El.
      apply in_or_app. right. now left. }
    destruct Hb as [qb Hqb].
    cbn [first_best] in *. rewrite Eb, Hq, Hqb.
    destruct (fltb (Fin q) (Fin qb)) eqn:Ef.
    + apply fltb_Fin in Ef. exists (x :: pre), b, post.
      rewrite El. repeat split; try assumption.
      constructor; [|exact Hpre]. unfold rate_of. now rewrite Hq, Hqb.
    + apply fltb_Fin_false in Ef. exists [], x, (y :: rest').
      repeat split; [constructor|].
      assert (Hxb : rate_of b <= rate_of x)
        by (unfold rate_of; now rewrite Hq, Hqb).
      rewrite El. apply Forall_app. split; [|constructor].
      * eapply Forall_impl; [|exact Hpre]. intros z Hz. cbv beta in Hz. lra.
      * exact Hxb.
      * eapply Forall_impl; [|exact Hpost]. intros z Hz. cbv beta in Hz. lra.
Qed.

Lemma idxmin_spec (l : list Summary.t) :
  l <> [] -> Forall finite_rate l ->
  exists pre b post,
    l = pre ++ b :: post /\ idxmin l = Some b /\
    Forall (fun x => rate_of b < rate_of x) pre /\
    Forall (fun x => rate_of b <= rate_of x) post.
Proof.
  unfold idxmin. induction l as [|x rest IH]; [congruence|].
  intros _ Hfin. inversion Hfin as [|? ? [q Hq] Hrest]; subst.
  destruct rest as [|y rest'].
  - exists [], x, []. cbn [first_best]. rewrite Hq.
    repeat split; constructor.
  - destruct (IH ltac:(discriminate) Hrest)
      as (pre & b & post & El & Eb & Hpre & Hpost).
    assert (Hb : finite_rate b).
    { rewrite Forall_forall in Hrest. apply Hrest. rewrite El.
      apply in_or_app. right. now left. }
    destruct Hb as [qb Hqb].
    cbn [first_best] in *. rewrite Eb, Hq, Hqb.
    destruct (fltb (Fin qb) (Fin q)) eqn:Ef.
    + apply fltb_Fin in Ef. exists (x :: pre), b, post.
      rewrite El. repeat split; try assumption.
      constructor; [|exact Hpre]. unfold rate_of. now rewrite Hq, Hqb.
    + apply fltb_Fin_false in Ef. exists [], x, (y :: rest').
      repeat split; [constructor|].
      assert (Hxb : rate_of x <= rate_of b)
        by (unfold rate_of; now rewrite Hq, Hqb).
      rewrite El. apply Forall_app. split; [|constructor].
      * eapply Forall_impl; [|exact Hpre]. intros z Hz. cbv beta in Hz. lra.
      * exact Hxb.
      * eapply Forall_impl; [|exact Hpost]. intros z Hz. cbv beta in Hz. lra.
Qed.

(** X17: on a non-empty summary with finite rates the recommendation
    names as best the first entry with the highest treatment rate and as
    worst the first entry with the lowest: every rate lies between those
    of the two, and the entries before the best (the worst) have a
    strictly lower (higher) rate. *)
Theorem best_and_worst_treatment (l : list Summary.t) :
  l <> [] -> Forall finite_rate l ->
  exists rec,
    recommend l = Some rec /\
    Forall (fun x =>
              rate_of (worst_treatment rec) <= rate_of x
              <= rate_of (best_treatment rec)) l /\
    (exists pre post,
       l = pre ++ best_treatment rec :: post /\
       Forall (fun x => rate_of x < rate_of (best_treatment rec)) pre) /\
    (exists pre post,
       l = pre ++ worst_treatment rec :: post /\
       Forall (fun x => rate_of (worst_treatment rec) < rate_of x) pre).
Proof.
  intros Hne Hfin.
  destruct (idxmax_spec l Hne Hfin) as (p1 & b & q1 & E1 & Eb & Hp1 & Hq1).
  destruct (idxmin_spec l Hne Hfin) as (p2 & w & q2 & E2 & Ew & Hp2 & Hq2).
  unfold recommend. rewrite Eb, Ew. eexists. split; [reflexivity|].
  cbn [best_treatment worst_treatment]. split; [|split].
  - assert (Hmax : Forall (fun x => rate_of x <= rate_of b) l).
    { rewrite E1. apply Forall_app. split.
      - eapply Forall_impl; [|exact Hp1]. intros z Hz. cbv beta in Hz. lra.
      - constructor; [lra|exact Hq1]. }
    assert (Hmin : Forall (fun x => rate_of w <= rate_of x) l).
    { rewrite E2. apply Forall_app. split.
      - eapply Forall_impl; [|exact Hp2]. intros z Hz. cbv beta in Hz. lra.
      - constructor; [lra|exact Hq2]. }
    rewrite Forall_forall in *. intros x Hx. split; auto.
  - now exists p1, q1.
  - now exists p2, q2.
Qed.

(** X18: the advice looks at the significance flag of the best entry
    only, not at the direction of its effect: when every treatment has a
    negative effect that is flagged significant, the recommendation is
    still to implement one of them, with a negative expected
    improvement. *)
Theorem recommendation_ignores_direction (l : list Summary.t) :
  l <> [] ->
  Forall (fun x =>
            finite_rate x /\ Summary.significant x = true /\
            exists e, Summary.effect_size x = Fin e /\ e < 0) l ->
  exists rec e,
    recommend l = Some rec /\
    In (best_treatment rec) l /\
    advised rec
    = Implement (Summary.group (best_treatment rec)) (Fin (e * 100)) /\
    e < 0.
Proof.
  intros Hne Hall.
  assert (Hfin : Forall finite_rate l)
    by (eapply Forall_impl; [|exact Hall]; intros x Hx; apply Hx).
  destruct (idxmax_spec l Hne Hfin) as (p1 & b & q1 & E1 & Eb & _).
  destruct (idxmin_spec l Hne Hfin) as (p2 & w & q2 & _ & Ew & _).
  assert (Hin : In b l)
    by (rewrite E1; apply in_or_app; right; now left).
  rewrite Forall_forall in Hall.
  destruct (Hall b Hin) as (_ & Hs & e & He & Hneg).
  unfold recommend. rewrite Eb, Ew. eexists. exists e.
  split; [reflexivity|]. cbn [best_treatment advised].
  split; [exact Hin|]. rewrite Hs, He. split; [reflexivity|exact Hneg].
Qed.

(** ** Finding the dataset file *)

Module GetDataFacts.
Import Ascii String GetData.
Local Open Scope string_scope.

Lemma endswith_refl (s : string) : endswith s s = true.
Proof. destruct s; cbn [endswith]; rewrite String.eqb_refl; reflexivity. Qed.

Lemma endswith_append (pre s suffix : string) :
  endswith s suffix = true -> endswith (pre ++ s) suffix = true.
Proof.
  intros H. induction pre as [|c pre IH]; [exact H|].
  cbn [append endswith]. rewrite IH. apply orb_true_r.
Qed.

(** [endswith] is the suffix relation of strings. *)
Lemma endswith_spec (s suffix : string) :
  endswith s suffix = true <-> exists pre, s = pre ++ suffix.
Proof.
  split.
  - induction s as [|c s IH]; cbn [endswith].
    + rewrite orb_false_r. intros H. apply String.eqb_eq in H.
      exists "". now subst.
    + intros H. apply orb_prop in H. destruct H as [H|H].
      * apply String.eqb_eq in H. exists "". now rewrite <- H.
      * destruct (IH H) as [pre ->]. now exists (String c pre).
  - intros [pre ->]. apply endswith_append, endswith_refl.
Qed.

Lemma append_associative (a b c : string) : (a ++ b) ++ c = a ++ b ++ c.
Proof.
  induction a as [|x a IH]; [reflexivity|]. cbn [append]. now rewrite IH.
Qed.

Lemma path_join_suffix (path name : string) :
  exists pre, path_join path name = pre ++ name.
Proof.
  unfold path_join. destruct (prefix "/" name); [now exists ""|].
  destruct ((path =? "") || endswith path "/")%bool.
  - now exists path.
  - exists (path ++ "/"). symmetry. apply append_associative.
Qed.

Lemma first_csv_none (files : list string) :
  first_csv files = None <->
  Forall (fun f => endswith f ".csv" = false) files.
Proof.
  induction files as [|f files IH]; cbn [first_csv].
  - split; [constructor|reflexivity].
  - destruct (endswith f ".csv") eqn:E.
    + split; [discriminate|]. intros H. inversion H. congruence.
    + rewrite IH. split.
      * intros H. now constructor.
      * intros H. now inversion H.
Qed.

Lemma first_csv_some (files : list string) (f : string) :
  first_csv files = Some f ->
  exists before after,
    files = (before ++ f :: after)%list /\
    Forall (fun f' => endswith f' ".csv" = false) before /\
    endswith f ".csv" = true.
Proof.
  induction files as [|f0 files IH]; cbn [first_csv]; [discriminate|].
  destruct (endswith f0 ".csv") eqn:E.
  - intros [= <-]. exists nil, files. repeat split; [constructor|exact E].
  - intros H. destruct (IH H) as (before & after & -> & Hb & Hf).
    exists (f0 :: before)%list, after. repeat split; [|exact Hf].
    now constructor.
Qed.

(** X19: the script fails with [FileNotFoundError] exactly when no file
    name of the folder ends in ".csv"; otherwise it takes the first such
    name, no earlier name ends in ".csv", and the path it builds ends
    with that name and so in ".csv". *)
Theorem csv_selection (path : string) (files : list string) :
  (csv_path path files = inl FileNotFoundError <->
   Forall (fun f => endswith f ".csv" = false) files) /\
  (forall p,
     csv_path path files = inr p ->
     exists before f after,
       files = (before ++ f :: after)%list /\
       Forall (fun f' => endswith f' ".csv" = false) before /\
       endswith f ".csv" = true /\
       p = path_join path f /\
       endswith p f = true /\ endswith p ".csv" = true).
Proof.
  unfold csv_path. split.
  - destruct (first_csv files) as [f|] eqn:E.
    + split; [discriminate|]. intros H. apply first_csv_none in H.
      congruence.
    + split; [intros _; now apply first_csv_none|reflexivity].
  - intros p. destruct (first_csv files) as [f|] eqn:E; [|discriminate].
    intros [= <-]. destruct (first_csv_some _ _ E) as (b & a & Hf & Hb & He).
    exists b, f, a. repeat split; try assumption.
    + destruct (path_join_suffix path f) as [pre ->].
      apply endswith_append, endswith_refl.
    + destruct (path_join_suffix path f) as [pre ->].
      now apply endswith_append.
Qed.

End GetDataFacts.

(** ** Instances

    Each result that carries a premise is applied once to concrete data. *)

Lemma one_empty_sample_raises_witness :
  exists e,
    perform_ab_test [] [1%Z; 0%Z] default_alpha = Raised e /\
    chi2_contingency_error e /\
    (boolean [] -> boolean [1%Z; 0%Z] ->
     exists i j, e = ValueError_expected_zero i j).
Proof.
  apply (one_empty_sample_raises [] [1%Z; 0%Z] default_alpha).
  left. split; [reflexivity|discriminate].
Defined.


Lemma small_samples_testable : testable [1%Z; 0%Z] [1%Z; 1%Z; 0%Z].
Proof. unfold testable, series_sum, series_len. simpl. lia. Defined.

Lemma confidence_bounds_formula_witness :
  let control := [1%Z; 0%Z] in
  let treatment := [1%Z; 1%Z; 0%Z] in
  let r := expected_result control treatment default_alpha in
  let effect := rate treatment - rate control in
  let se :=
    sqrt (rate control * (1 - rate control) / IZR (series_len control)
          + rate treatment * (1 - rate treatment)
            / IZR (series_len treatment)) in
  ci_lower r = Fin (effect - 196 / 100 * se) /\
  ci_upper r = Fin (effect + 196 / 100 * se).
Proof.
  apply (confidence_bounds_formula [1%Z; 0%Z] [1%Z; 1%Z; 0%Z] default_alpha).
  - discriminate.
  - discriminate.
  - apply perform_ab_test_returns, small_samples_testable.
Defined.

Lemma effect_size_and_significance_witness :
  let control := [1%Z; 0%Z] in
  let treatment := [1%Z; 1%Z; 0%Z] in
  let r := expected_result control treatment default_alpha in
  effect_size r = Fin (rate treatment - rate control) /\
  p_value r = Fin (chi2_sf_real (sample_stat control treatment)) /\
  significant r = fltb (p_value r) default_alpha /\
  (forall a, default_alpha = Fin a ->
     (significant r = true <->
      chi2_sf_real (sample_stat control treatment) < a)).
Proof.
  apply (effect_size_and_significance [1%Z; 0%Z] [1%Z; 1%Z; 0%Z]
           default_alpha).
  - discriminate.
  - discriminate.
  - apply perform_ab_test_returns, small_samples_testable.
Defined.


Lemma identical_rates_no_effect_witness :
  exists r,
    perform_ab_test (sample_of 1 2) (sample_of 2 4) default_alpha
    = Returned r /\
    effect_size r = Fin 0 /\ p_value r = Fin 1 /\ significant r = false.
Proof.
  apply (proj1 identical_rates_no_effect (sample_of 1 2) (sample_of 2 4)).
  - apply sample_of_testable; lia.
  - rewrite !sample_of_rate by lia. simpl. lra.
Defined.


Lemma business_impact_double_counts_witness :
  let r := calculate_business_impact (Fin (9 / 10)) (Fin (8 / 10))
             (Fin 100000) default_avg_project_cost in
  net_impact r = fmul (Fin 2) (additional_funding r) /\
  net_impact r = Fin (2 * ((8 / 10 - 9 / 10) * 100000 * (29812 / 100))).
Proof.
  apply (proj2 (proj2 (business_impact_double_counts
                         (9 / 10) (8 / 10) 100000 (29812 / 100)))).
  lra.
Defined.

(** *** Instances of the further results *)

Lemma boolean_small_control : boolean [1%Z; 0%Z].
Proof. repeat constructor; (now left) || (now right). Defined.

Lemma boolean_small_treatment : boolean [1%Z; 1%Z; 0%Z].
Proof. repeat constructor; (now left) || (now right). Defined.

Lemma tester_returns_iff_witness :
  let control := [1%Z; 0%Z] in
  let treatment := [1%Z; 1%Z; 0%Z] in
  ((exists r, perform_ab_test control treatment default_alpha = Returned r)
   <->
   (control = [] /\ treatment = []) \/
   (control <> [] /\ treatment <> [] /\
    In 1%Z (control ++ treatment) /\ In 0%Z (control ++ treatment)))
  /\
  ((exists r, perform_ab_test control treatment default_alpha = Returned r)
   \/
   (exists i j,
      perform_ab_test control treatment default_alpha
      = Raised (ValueError_expected_zero i j))).
Proof.
  apply (tester_returns_iff [1%Z; 0%Z] [1%Z; 1%Z; 0%Z] default_alpha).
  - exact boolean_small_control.
  - exact boolean_small_treatment.
Defined.

Lemma returned_result_ranges_witness :
  let control := [1%Z; 0%Z] in
  let treatment := [1%Z; 1%Z; 0%Z] in
  let r := expected_result control treatment default_alpha in
  exists p1 p2 half p,
    control_rate r = Fin p1 /\ treatment_rate r = Fin p2 /\
    effect_size r = Fin (p2 - p1) /\
    ci_lower r = Fin (p2 - p1 - half) /\
    ci_upper r = Fin (p2 - p1 + half) /\
    p_value r = Fin p /\
    0 <= p1 <= 1 /\ 0 <= p2 <= 1 /\
    0 <= half <= 98 / 100 * sqrt (1 / IZR (series_len control)
                                  + 1 / IZR (series_len treatment)) /\
    p <= 1.
Proof.
  apply (returned_result_ranges [1%Z; 0%Z] [1%Z; 1%Z; 0%Z] default_alpha).
  - discriminate.
  - discriminate.
  - apply perform_ab_test_returns, small_samples_testable.
Defined.

Lemma tester_order_irrelevant_witness :
  perform_ab_test [1%Z; 0%Z] [1%Z; 1%Z; 0%Z] default_alpha
  = perform_ab_test [0%Z; 1%Z] [0%Z; 1%Z; 1%Z] default_alpha.
Proof.
  apply tester_order_irrelevant.
  - apply perm_swap.
  - apply Permutation_sym, (Permutation_cons_append [1%Z; 1%Z] 0%Z).
Defined.

Lemma tiny_gap (x : R) : / 10 <= x -> / 10 ^ 100 <= Rabs x.
Proof.
  intros Hx. rewrite Rabs_right by lra.
  apply Rle_trans with (/ 10); [|exact Hx].
  apply Rinv_le_contravar; [lra|].
  replace 10 with (10 ^ 1) at 1 by ring. apply Rle_pow; [lra|lia].
Qed.

Lemma sample_size_valid_rates_witness :
  exists n,
    calculate_sample_size default_alpha default_power
      (Fin (1 / 10)) (Fin (3 / 10)) = Returned n /\
    (1 <= n)%Z /\ IZR n <= 32 / (3 / 10 - 1 / 10) ^ 2 + 1.
Proof.
  apply (sample_size_valid_rates (1 / 10) (3 / 10)); [lra|lra|].
  apply tiny_gap. lra.
Defined.

Lemma rate_17_of_20 : rate (sample_of 17 20) = 85 / 100.
Proof. rewrite sample_of_rate by lia. simpl. lra. Defined.

Lemma sample_size_table_decreasing_witness :
  exists n1 n2 n3 n5,
    sample_size_analysis (sample_of 17 20) =
    Returned {| requirements :=
                  [(Fin (1 / 100), n1); (Fin (2 / 100), n2);
                   (Fin (3 / 100), n3); (Fin (5 / 100), n5)];
                target_sample_size := 5000;
                total_test_size := 20000 |} /\
    (0 < n5 <= n3)%Z /\ (n3 <= n2)%Z /\ (n2 <= n1)%Z.
Proof.
  apply (sample_size_table_decreasing (sample_of 17 20)).
  - discriminate.
  - rewrite rate_17_of_20. lra.
Defined.

Lemma sample_size_table_fails_witness :
  sample_size_analysis [1%Z; 1%Z] = Raised ValueError_nan_to_int.
Proof.
  apply (sample_size_table_fails [1%Z; 1%Z]). right.
  unfold rate, series_sum, series_len. simpl. lra.
Defined.

Lemma group_from_leading_bits_witness :
  (1 < length [(1, 500); (0, 900)]%Z)%nat /\
  let '(rows, _, _) :=
    implement_ab_test [(1, 500); (0, 900)]%Z example_stream in
  exists r, nth_error rows 1%nat = Some r /\ test_group r = D.
Proof.
  split; [simpl; lia|].
  apply (group_from_leading_bits [(1, 500); (0, 900)]%Z example_stream
           1%nat).
  simpl. lia.
Defined.

Lemma experiment_randomness_witness :
  let '(rows, ab_test_approved, g') :=
    implement_ab_test [(1, 500); (0, 900)]%Z (fun _ => 0%Z) in
  Forall2 (fun r v => draws_on r = false -> v = project_is_approved r)
    rows ab_test_approved /\
  forall n,
    g' n = (fun _ : nat => 0%Z)
             (2 * (length [(1, 500); (0, 900)]%Z
                   + length (filter draws_on rows)) + n)%nat.
Proof.
  exact (experiment_randomness [(1, 500); (0, 900)]%Z (fun _ => 0%Z)).
Defined.

Lemma group_outcomes_bounded_witness :
  boolean (map fst [(1, 500); (0, 900)]%Z) /\
  boolean
    (group_outcomes (frame_of [(1, 500); (0, 900)]%Z (fun _ => 0%Z)) B).
Proof.
  split; [exact boolean_small_control|].
  apply (proj2 (proj2 (group_outcomes_bounded [(1, 500); (0, 900)]%Z
                         (fun _ => 0%Z)))).
  exact boolean_small_control.
Defined.

Lemma essay_length_bin_spec_witness :
  (6 < 7)%nat /\
  (nth 6 essay_length_bins 0 < 2500 <= nth 7 essay_length_bins 0)%Z.
Proof.
  apply (proj2 (essay_length_bin_spec
                  {| project_is_approved := 1;
                     essay_length := 2500;
                     test_group := B |}) 6%nat).
  reflexivity.
Defined.

Lemma example_control_nonempty : group_outcomes example_frame A <> [].
Proof. discriminate. Defined.

Lemma example_frame_testable (grp : group) :
  In grp [B; C; D] ->
  testable (group_outcomes example_frame A) (group_outcomes example_frame grp).
Proof.
  intros [<-|[<-|[<-|[]]]];
    unfold testable, series_sum, series_len; simpl; lia.
Defined.

Lemma statistical_tests_returns_iff_witness :
  ((exists rs, statistical_tests example_frame = Returned rs) <->
   (forall grp, In grp [B; C; D] ->
      testable (group_outcomes example_frame A)
        (group_outcomes example_frame grp))) /\
  (forall rs,
     statistical_tests example_frame = Returned rs ->
     rs = map (summary_of example_frame) [B; C; D] /\
     Forall
       (fun s =>
          Summary.treatment_rate s
          = Fin (rate (group_outcomes example_frame (Summary.group s))) /\
          Summary.effect_size s
          = Fin (rate (group_outcomes example_frame (Summary.group s))
                 - rate (group_outcomes example_frame A)))
       rs).
Proof.
  apply (statistical_tests_returns_iff example_frame).
  exact example_control_nonempty.
Defined.

Lemma statistical_tests_uniform_outcomes_witness :
  exists i j,
    statistical_tests [tagged B 1 900 1; tagged C 1 950 1]%Z
    = Raised (ValueError_expected_zero i j).
Proof.
  apply (statistical_tests_uniform_outcomes
           [tagged B 1 900 1; tagged C 1 950 1]%Z 1%Z).
  - discriminate.
  - now right.
  - repeat constructor.
Defined.

Lemma business_figures_from_effects_witness :
  exists imps,
    business_impact_analysis example_frame = Returned imps /\
    map fst imps = [B; C; D] /\
    Forall
      (fun gi =>
         let e := rate (group_outcomes example_frame (fst gi))
                  - rate (group_outcomes example_frame A) in
         additional_approved (snd gi) = Fin (e * 100000) /\
         additional_funding (snd gi) = Fin (e * 100000 * (29812 / 100)) /\
         (0 <= e ->
            projects_rejected (snd gi) = Fin 0 /\
            net_impact (snd gi) = Fin (e * 100000 * (29812 / 100))) /\
         (e < 0 ->
            net_impact (snd gi) = Fin (2 * (e * 100000 * (29812 / 100)))))
      imps.
Proof.
  apply (business_figures_from_effects example_frame
           (map (summary_of example_frame) [B; C; D])).
  - exact example_control_nonempty.
  - apply statistical_tests_testable, example_frame_testable.
Defined.

Lemma example_summary_finite : Forall finite_rate example_summary.
Proof. repeat constructor; eexists; reflexivity. Defined.

Lemma best_and_worst_treatment_witness :
  exists rec,
    recommend example_summary = Some rec /\
    Forall (fun x =>
              rate_of (worst_treatment rec) <= rate_of x
              <= rate_of (best_treatment rec)) example_summary /\
    (exists pre post,
       example_summary = pre ++ best_treatment rec :: post /\
       Forall (fun x => rate_of x < rate_of (best_treatment rec)) pre) /\
    (exists pre post,
       example_summary = pre ++ worst_treatment rec :: post /\
       Forall (fun x => rate_of (worst_treatment rec) < rate_of x) pre).
Proof.
  apply (best_and_worst_treatment example_summary).
  - discriminate.
  - exact example_summary_finite.
Defined.

Lemma recommendation_ignores_direction_witness :
  exists rec e,
    recommend example_summary = Some rec /\
    In (best_treatment rec) example_summary /\
    advised rec
    = Implement (Summary.group (best_treatment rec)) (Fin (e * 100)) /\
    e < 0.
Proof.
  apply (recommendation_ignores_direction example_summary).
  - discriminate.
  - repeat constructor; try (eexists; reflexivity);
      eexists; (split; [reflexivity|lra]).
Defined.

Module GetDataInstances.
Import Ascii String GetData.
Local Open Scope string_scope.

Lemma csv_selection_witness :
  exists before f after,
    ("readme.txt" :: "train.csv" :: "test.csv" :: nil)%list
    = (before ++ f :: after)%list /\
    Forall (fun f' => endswith f' ".csv" = false) before /\
    endswith f ".csv" = true /\
    "/data/donors/train.csv" = path_join "/data/donors" f /\
    endswith "/data/donors/train.csv" f = true /\
    endswith "/data/donors/train.csv" ".csv" = true.
Proof.
  apply (proj2 (GetDataFacts.csv_selection "/data/donors"
                  ("readme.txt" :: "train.csv" :: "test.csv" :: nil)%list)
           "/data/donors/train.csv").
  reflexivity.
Defined.

End GetDataInstances.
